(** * Movie browser (src/App.tsx): derivation pipeline and fetch lifecycle

    A shallow embedding of the single component [App]:
    - the JavaScript built-ins the component calls ([toLowerCase],
      [includes], [parseInt], number rendering, [Array.prototype.filter],
      [Array.prototype.sort]);
    - [getRuntime], [handleFilterChange], the [filteredMovies] expression;
    - the [fetchMovies] effect as a state transformer over the component's
      four state cells, and the render cascade that picks the screen.

    Strings are sequences of code units in the Latin-1 range (Rocq's
    [string]).  Numbers are the IEEE doubles the component meets: [NaN],
    the two infinities, and the doubles that are integers; an integer
    enters as a double by rounding to the nearest one, ties to even. *)

From Stdlib Require Import ZArith String Ascii List Lia Bool.
From Stdlib Require Import Sorting.Sorted Sorting.Permutation.
From Stdlib Require Import DecimalString HexadecimalString DecimalZ DecimalN.
From stdpp Require Import gmap.
Import ListNotations.

Local Open Scope Z_scope.

(** ** JavaScript built-ins *)

Module JS.

(** *** Numbers *)

Inductive number : Type :=
| NaN
| Num (z : Z)
| Inf (negative : bool).

(** The double nearest to the integer [z], ties to the even significand;
    from 2^1024 on the result is an infinity.  Below 2^53 every integer is
    a double. *)
Definition roundDouble (z : Z) : number :=
  let a := Z.abs z in
  if a <? 9007199254740992 then Num z
  else
    let shift := Z.log2 a - 52 in
    let q := Z.shiftr a shift in
    let r := a - Z.shiftl q shift in
    let half := Z.shiftl 1 (shift - 1) in
    let q' := if (half <? r) || ((r =? half) && Z.odd q) then q + 1 else q in
    let m := Z.shiftl q' shift in
    if Z.shiftl 1 1024 <=? m then Inf (z <? 0) else Num (Z.sgn z * m).

(** The sign of a number, zero for [NaN]. *)
Definition sign (n : number) : Z :=
  match n with
  | NaN => 0
  | Num v => Z.sgn v
  | Inf negative => if negative then -1 else 1
  end.

(** [a - b]: the exact difference, rounded. *)
Definition sub (a b : number) : number :=
  match a, b with
  | NaN, _ | _, NaN => NaN
  | Num x, Num y => roundDouble (x - y)
  | Num _, Inf t => Inf (negb t)
  | Inf s, Num _ => Inf s
  | Inf s, Inf t => if Bool.eqb s t then NaN else Inf s
  end.

(** [Math.floor(a / b)] for an integer divisor [b].  The quotient of two
    doubles is rounded before the floor is taken; for an integer of
    magnitude up to 2^53 that rounding never reaches the next integer, so
    the result is the floor of the exact quotient.  Above 2^53 this
    definition still returns the floor of the exact quotient, which the
    host no longer does. *)
Definition floor_div (a : number) (b : Z) : number :=
  match a with
  | NaN => NaN
  | Num x =>
      if b =? 0 then
        if x =? 0 then NaN else Inf (x <? 0)
      else Num (x / b)
  | Inf negative => Inf (xorb negative (b <? 0))
  end.

(** [a % b]: the remainder has the sign of the dividend and is exact; of
    an infinity, and by zero, it is [NaN]. *)
Definition rem (a : number) (b : Z) : number :=
  match a with
  | Num x => if b =? 0 then NaN else Num (Z.rem x b)
  | NaN | Inf _ => NaN
  end.

(** [a > b]; every comparison with [NaN] is false. *)
Definition gt (a : number) (b : Z) : bool :=
  match a with
  | Num x => b <? x
  | NaN => false
  | Inf negative => negb negative
  end.

(** Template-literal rendering [`${n}`] of a number: for an integer below
    10^21 in magnitude, its decimal digits.  From 10^21 on the host writes
    exponent notation; this definition still writes the digits. *)
Definition toString (n : number) : string :=
  match n with
  | NaN => "NaN"%string
  | Num z => DecimalString.NilZero.string_of_int (Z.to_int z)
  | Inf false => "Infinity"%string
  | Inf true => "-Infinity"%string
  end.

(** *** Strings *)

Definition code (c : ascii) : N := N_of_ascii c.

(** Upper-case letters of Latin-1: A-Z, and U+00C0-U+00DE without the
    multiplication sign U+00D7.  Each maps to the code unit 32 above.  In
    this range the mapping of a character does not depend on its
    neighbours; the context-dependent rules of the language (final sigma)
    concern characters these strings do not hold. *)
Definition isUpper (c : ascii) : bool :=
  let n := code c in
  ((65 <=? n) && (n <=? 90) ||
   (192 <=? n) && (n <=? 222) && negb (n =? 215))%N.

Definition lowerChar (c : ascii) : ascii :=
  if isUpper c then ascii_of_N (code c + 32) else c.

Fixpoint toLowerCase (s : string) : string :=
  match s with
  | EmptyString => EmptyString
  | String c s' => String (lowerChar c) (toLowerCase s')
  end.

(** [s.includes(t)]: [t] occurs in [s] at some position. *)
Fixpoint includes (s t : string) : bool :=
  String.prefix t s ||
  match s with
  | EmptyString => false
  | String _ s' => includes s' t
  end.

(** *** parseInt (one argument, so radix 10 unless a 0x prefix follows the
    sign) *)

(** White space and line terminators: TAB, LF, VT, FF, CR, SP, NBSP. *)
Definition isStrWhiteSpaceChar (c : ascii) : bool :=
  let n := code c in
  ((9 <=? n) && (n <=? 13) || (n =? 32) || (n =? 160))%N.

Fixpoint trimStart (s : string) : string :=
  match s with
  | EmptyString => EmptyString
  | String c s' => if isStrWhiteSpaceChar c then trimStart s' else s
  end.

(** The longest prefix of decimal digits, as a numeral. *)
Fixpoint decimalPrefix (s : string) : Decimal.uint :=
  match s with
  | String "0" s' => Decimal.D0 (decimalPrefix s')
  | String "1" s' => Decimal.D1 (decimalPrefix s')
  | String "2" s' => Decimal.D2 (decimalPrefix s')
  | String "3" s' => Decimal.D3 (decimalPrefix s')
  | String "4" s' => Decimal.D4 (decimalPrefix s')
  | String "5" s' => Decimal.D5 (decimalPrefix s')
  | String "6" s' => Decimal.D6 (decimalPrefix s')
  | String "7" s' => Decimal.D7 (decimalPrefix s')
  | String "8" s' => Decimal.D8 (decimalPrefix s')
  | String "9" s' => Decimal.D9 (decimalPrefix s')
  | _ => Decimal.Nil
  end.

(** The longest prefix of hexadecimal digits (either case), as a numeral. *)
Fixpoint hexPrefix (s : string) : Hexadecimal.uint :=
  match s with
  | String "0" s' => Hexadecimal.D0 (hexPrefix s')
  | String "1" s' => Hexadecimal.D1 (hexPrefix s')
  | String "2" s' => Hexadecimal.D2 (hexPrefix s')
  | String "3" s' => Hexadecimal.D3 (hexPrefix s')
  | String "4" s' => Hexadecimal.D4 (hexPrefix s')
  | String "5" s' => Hexadecimal.D5 (hexPrefix s')
  | String "6" s' => Hexadecimal.D6 (hexPrefix s')
  | String "7" s' => Hexadecimal.D7 (hexPrefix s')
  | String "8" s' => Hexadecimal.D8 (hexPrefix s')
  | String "9" s' => Hexadecimal.D9 (hexPrefix s')
  | String "a" s' | String "A" s' => Hexadecimal.Da (hexPrefix s')
  | String "b" s' | String "B" s' => Hexadecimal.Db (hexPrefix s')
  | String "c" s' | String "C" s' => Hexadecimal.Dc (hexPrefix s')
  | String "d" s' | String "D" s' => Hexadecimal.Dd (hexPrefix s')
  | String "e" s' | String "E" s' => Hexadecimal.De (hexPrefix s')
  | String "f" s' | String "F" s' => Hexadecimal.Df (hexPrefix s')
  | _ => Hexadecimal.Nil
  end.

(** The value of the digits, as the double nearest to it.  (The language
    lets a host drop the digits after the twentieth before rounding; the
    current engines round the exact value.) *)
Definition decimalValue (s : string) : number :=
  match decimalPrefix s with
  | Decimal.Nil => NaN
  | d => roundDouble (Z.of_uint d)
  end.

Definition hexValue (s : string) : number :=
  match hexPrefix s with
  | Hexadecimal.Nil => NaN
  | d => roundDouble (Z.of_hex_uint d)
  end.

Definition negate (n : number) : number :=
  match n with
  | Num z => Num (- z)
  | NaN => NaN
  | Inf negative => Inf (negb negative)
  end.

(** After the sign: a 0x or 0X prefix switches to radix 16. *)
Definition parseMagnitude (s : string) : number :=
  match s with
  | String "0" (String "x" s') | String "0" (String "X" s') => hexValue s'
  | _ => decimalValue s
  end.

Definition parseInt (input : string) : number :=
  match trimStart input with
  | String "-" s => negate (parseMagnitude s)
  | String "+" s => parseMagnitude s
  | s => parseMagnitude s
  end.

(** *** Array.prototype.sort

    The comparator's result is read as SortCompare does: [NaN] counts as
    zero, a positive value moves the second argument in front of the
    first, anything else keeps the pair as it is.  The sort is stable, as
    the language requires; for a consistent comparator every stable sort
    returns the same list, here produced by insertion from the right.  For
    a comparator that is not consistent the language leaves the order to
    the host, and this definition gives one of the orders allowed. *)

Definition SortCompare {A} (comparefn : A -> A -> number) (x y : A) : Z :=
  match comparefn x y with
  | NaN => 0
  | Num v => v
  | Inf negative => if negative then -1 else 1
  end.

(** [x] may stand before [y]: the comparator does not ask for a swap. *)
Definition before {A} (comparefn : A -> A -> number) (x y : A) : Prop :=
  SortCompare comparefn x y <= 0.

(** The comparator ranks [x] and [y] the same. *)
Definition tied {A} (comparefn : A -> A -> number) (x y : A) : bool :=
  SortCompare comparefn x y =? 0.

(** A consistent comparator orders its arguments as a total preorder. *)
Record consistent {A} (comparefn : A -> A -> number) : Prop := {
  consistent_refl : forall x, SortCompare comparefn x x = 0;
  consistent_flip :
    forall x y, 0 < SortCompare comparefn x y <-> SortCompare comparefn y x < 0;
  consistent_trans :
    forall x y z, before comparefn x y -> before comparefn y z ->
                  before comparefn x z
}.

(** What the language asks of the result [l'] of sorting [l]: the same
    elements, in order, with tied elements in their original order. *)
Definition stableSortOf {A} (comparefn : A -> A -> number) (l l' : list A)
  : Prop :=
  Permutation l' l
  /\ Sorted (before comparefn) l'
  /\ forall x, List.filter (tied comparefn x) l'
               = List.filter (tied comparefn x) l.

Fixpoint insert {A} (comparefn : A -> A -> number) (x : A) (l : list A)
  : list A :=
  match l with
  | [] => [x]
  | y :: l' =>
      if 0 <? SortCompare comparefn x y
      then y :: insert comparefn x l'
      else x :: l
  end.

Fixpoint sort {A} (comparefn : A -> A -> number) (l : list A) : list A :=
  match l with
  | [] => []
  | x :: l' => insert comparefn x (sort comparefn l')
  end.

(** *** Arrays as objects

    An array is an object on the heap, named by a reference.  [filter]
    allocates a new array and leaves its receiver alone; [sort] rewrites
    its receiver in place and returns the same reference. *)

Definition ref : Type := positive.

Definition alloc {A} (h : gmap ref (list A)) (l : list A)
  : gmap ref (list A) * ref :=
  let r := fresh (dom h) in (<[r := l]> h, r).

Definition Array_filter {A} (p : A -> bool) (r : ref) (h : gmap ref (list A))
  : option (gmap ref (list A) * ref) :=
  match h !! r with
  | Some l => Some (alloc h (List.filter p l))
  | None => None
  end.

Definition Array_sort {A} (comparefn : A -> A -> number) (r : ref)
  (h : gmap ref (list A)) : option (gmap ref (list A) * ref) :=
  match h !! r with
  | Some l => Some (<[r := sort comparefn l]> h, r)
  | None => None
  end.

End JS.


(** ** The component *)

Record Movie : Type := {
  Title : string;
  Year : string;
  Runtime : string;
  Poster : option string
}.

(** [sortBy] is declared as the union 'Title' | 'Year' | 'Runtime'; at run
    time it is a string, and [handleFilterChange] stores whatever string it
    is given (the cast [value as any]). *)
Record FilterOptions : Type := {
  searchTerm : string;
  sortBy : string
}.

(** The four [useState] cells. *)
Record State : Type := {
  movies : list Movie;
  isLoading : bool;
  error : option string;
  filters : FilterOptions
}.

Definition initialState : State :=
  {| movies := [];
     isLoading := true;
     error := None;
     filters := {| searchTerm := ""; sortBy := "Title" |} |}.

(** *** handleFilterChange *)

Inductive FilterKey : Type :=
| key_searchTerm
| key_sortBy.

(** [{ ...prev, [key]: value }] *)
Definition updateFilters (key : FilterKey) (value : string)
  (prev : FilterOptions) : FilterOptions :=
  match key with
  | key_searchTerm => {| searchTerm := value; sortBy := sortBy prev |}
  | key_sortBy => {| searchTerm := searchTerm prev; sortBy := value |}
  end.

Definition setFilters (f : FilterOptions -> FilterOptions) (s : State)
  : State :=
  {| movies := movies s; isLoading := isLoading s; error := error s;
     filters := f (filters s) |}.

Definition handleFilterChange (key : FilterKey) (value : string) (s : State)
  : State :=
  setFilters (updateFilters key value) s.

(** *** getRuntime *)

Definition getRuntime (runtime : string) : string :=
  let minutes := JS.parseInt runtime in
  let hours := JS.floor_div minutes 60 in
  let remainingMinutes := JS.rem minutes 60 in
  if JS.gt hours 0
  then (JS.toString hours ++ "h " ++ JS.toString remainingMinutes ++ "m")%string
  else (JS.toString remainingMinutes ++ "m")%string.

(** *** filteredMovies *)

Section Derivation.

(** [String.prototype.localeCompare] with the host's default locale: the
    collation is the host's, so it is a parameter here. *)
Variable localeCompare : string -> string -> Z.

Definition matchesSearch (f : FilterOptions) (movie : Movie) : bool :=
  JS.includes (JS.toLowerCase (Title movie)) (JS.toLowerCase (searchTerm f)).

Definition compareFn (f : FilterOptions) (a b : Movie) : JS.number :=
  if (sortBy f =? "Year")%string then
    JS.sub (JS.parseInt (Year b)) (JS.parseInt (Year a))
  else if (sortBy f =? "Runtime")%string then
    let runtimeA := JS.parseInt (Runtime a) in
    let runtimeB := JS.parseInt (Runtime b) in
    JS.sub runtimeB runtimeA
  else JS.Num (localeCompare (Title a) (Title b)).

(** The view list as a value. *)
Definition filteredMovies (l : list Movie) (f : FilterOptions) : list Movie :=
  JS.sort (compareFn f) (List.filter (matchesSearch f) l).

(** The same expression over the heap: [moviesRef] names the raw array;
    the result is the reference of the view list and the heap after the
    call. *)
Definition filteredMovies_heap (moviesRef : JS.ref) (f : FilterOptions)
  (h : gmap JS.ref (list Movie)) : option (gmap JS.ref (list Movie) * JS.ref) :=
  match JS.Array_filter (matchesSearch f) moviesRef h with
  | Some (h1, r1) => JS.Array_sort (compareFn f) r1 h1
  | None => None
  end.

End Derivation.

(** Comparison by code units, one admissible collation. *)
Definition codeUnitCompare (a b : string) : Z :=
  match String.compare a b with
  | Lt => -1
  | Eq => 0
  | Gt => 1
  end.

(** *** The fetch effect

    [fetchMovies] is an async function with try / catch / finally that
    writes state cells.  A computation takes the cells, and yields how it
    completed, the cells afterwards, and the cells as they stood after each
    write, in order. *)

(** What a [catch] clause can receive: an instance of [Error] with its
    message, or any other value. *)
Inductive Thrown : Type :=
| ErrorObject (message : string)
| OtherValue.

Inductive Completion (A : Type) : Type :=
| Normal (a : A)
| Abrupt (v : Thrown).
Arguments Normal {A} a.
Arguments Abrupt {A} v.

Definition Eff (A : Type) : Type :=
  State -> Completion A * State * list State.

Definition ret {A} (a : A) : Eff A :=
  fun s => (Normal a, s, []).

Definition bind {A B} (m : Eff A) (k : A -> Eff B) : Eff B :=
  fun s =>
    match m s with
    | (Normal a, s1, t1) =>
        match k a s1 with
        | (c, s2, t2) => (c, s2, t1 ++ t2)
        end
    | (Abrupt v, s1, t1) => (Abrupt v, s1, t1)
    end.

Notation "x <- m ;; k" := (bind m (fun x => k))
  (at level 100, m at next level, right associativity).
Notation "m ;; k" := (bind m (fun _ => k))
  (at level 100, right associativity).

Definition throw {A} (v : Thrown) : Eff A :=
  fun s => (Abrupt v, s, []).

(** [await p] for a promise that settles as [c]: resumes with the value or
    throws the rejection reason. *)
Definition await {A} (c : Completion A) : Eff A :=
  fun s => (c, s, []).

Definition try_catch_finally {A} (body : Eff A) (handler : Thrown -> Eff A)
  (finalizer : Eff unit) : Eff A :=
  fun s =>
    match body s with
    | (c, s1, t1) =>
        match (match c with
               | Normal a => (Normal a, s1, [])
               | Abrupt v => handler v s1
               end) with
        | (c', s2, t2) =>
            match finalizer s2 with
            | (Normal _, s3, t3) => (c', s3, t1 ++ t2 ++ t3)
            | (Abrupt v, s3, t3) => (Abrupt v, s3, t1 ++ t2 ++ t3)
            end
        end
    end.

Definition write (s' : State) : Eff unit :=
  fun _ => (Normal tt, s', [s']).

Definition setMovies (data : list Movie) : Eff unit :=
  fun s => write {| movies := data; isLoading := isLoading s;
                    error := error s; filters := filters s |} s.

Definition setIsLoading (b : bool) : Eff unit :=
  fun s => write {| movies := movies s; isLoading := b;
                    error := error s; filters := filters s |} s.

Definition setError (e : option string) : Eff unit :=
  fun s => write {| movies := movies s; isLoading := isLoading s;
                    error := e; filters := filters s |} s.

(** A received response: its [ok] flag and how [response.json()] settles. *)
Record Response : Type := {
  ok : bool;
  json : Completion (list Movie)
}.

(** [outcome] is how the promise returned by [fetch(url)] settles. *)
Definition fetchMovies (outcome : Completion Response) : Eff unit :=
  try_catch_finally
    (setIsLoading true ;;
     response <- await outcome ;;
     (if negb (ok response)
      then throw (ErrorObject "Failed to fetch movies")
      else ret tt) ;;
     data <- await (json response) ;;
     setMovies data)
    (fun err =>
       setError (Some match err with
                      | ErrorObject message => message
                      | OtherValue => "An error occurred"%string
                      end))
    (setIsLoading false).

Definition finalState {A} (r : Completion A * State * list State) : State :=
  snd (fst r).

Definition commits {A} (r : Completion A * State * list State) : list State :=
  snd r.

(** The effect runs once, on mount. *)
Definition afterFetch (outcome : Completion Response) : State :=
  finalState (fetchMovies outcome initialState).

(** *** The three returns of the component body

    [if (isLoading)] first, then [if (error)], where [error] has type
    [string | null]: null and the empty string are both falsy. *)

Inductive Lifecycle : Type :=
| Loading
| Error (message : string)
| Ready (list_ : list Movie).

Definition lifecycle (s : State) : Lifecycle :=
  if isLoading s then Loading
  else match error s with
       | Some (String c m) => Error (String c m)
       | Some EmptyString | None => Ready (movies s)
       end.

(** States the component can be in: the initial cells, the cells after any
    write of the fetch effect, and any of those after user input. *)
Inductive reachable : State -> Prop :=
| reachable_mount : reachable initialState
| reachable_commit outcome s :
    In s (commits (fetchMovies outcome initialState)) -> reachable s
| reachable_input key value s :
    reachable s -> reachable (handleFilterChange key value s).

(** The two tests of the component body, each on its own cell:
    [if (isLoading)] and [if (error)]. *)
Definition loadingSet (s : State) : Prop :=
  isLoading s = true.

Definition errorSet (s : State) (message : string) : Prop :=
  error s = Some message /\ message <> ""%string.

(** The cells between the write of the catch clause and the write of
    finally, for a request rejected with the message "offline". *)
Definition caughtOffline : State :=
  {| movies := []; isLoading := true; error := Some "offline"%string;
     filters := {| searchTerm := ""; sortBy := "Title" |} |}.

(** The message the [catch] clause stores for a rejection reason. *)
Definition messageOf (reason : Thrown) : string :=
  match reason with
  | ErrorObject message => message
  | OtherValue => "An error occurred"
  end.

(** The fetch failed, with [reason], before any not-ok check could throw:
    the request was rejected, or an ok response had a body that did not
    parse. *)
Inductive failsWith (reason : Thrown) : Completion Response -> Prop :=
| fails_request : failsWith reason (Abrupt reason)
| fails_body : failsWith reason (Normal {| ok := true; json := Abrupt reason |}).

(** ** Vocabulary of the statements *)

(** The Year of [a] and of [b] are numbers, and [a]'s is not the smaller. *)
Definition yearAtLeast (a b : Movie) : Prop :=
  exists ya yb,
    JS.parseInt (Year a) = JS.Num ya /\ JS.parseInt (Year b) = JS.Num yb /\
    yb <= ya.

Definition yearsParse (l : list Movie) : Prop :=
  forall movie, In movie l -> exists y, JS.parseInt (Year movie) = JS.Num y.

(** Neighbours are in ascending Title order under the collation. *)
Definition sortedByTitle (localeCompare : string -> string -> Z)
  (l : list Movie) : Prop :=
  Sorted (fun a b => localeCompare (Title a) (Title b) <= 0) l.

(** The collation never puts two strings each after the other. *)
Definition antisymmetric (localeCompare : string -> string -> Z) : Prop :=
  forall a b, 0 < localeCompare a b -> localeCompare b a <= 0.

(** Sample data. *)
Definition zeta : Movie :=
  {| Title := "Zeta"; Year := "1999"; Runtime := "90"; Poster := None |}.
Definition alpha : Movie :=
  {| Title := "Alpha"; Year := "2010"; Runtime := "120";
     Poster := Some "https://example.org/alpha.jpg"%string |}.
Definition matrix : Movie :=
  {| Title := "The Matrix"; Year := "1999"; Runtime := "136"; Poster := None |}.

(** *** The movie grid

    What the last return of the component body shows: one card per movie
    of the view list, and the no-results message when that list is empty.
    [movie.Poster ? ... : ...] takes the placeholder for a missing poster
    and for an empty one.  [render] gives the elements the body returns;
    the cards are keyed by Title, and the page built from them is sure to
    show exactly these cards when the keys are pairwise distinct. *)

Inductive PosterView : Type :=
| PosterImage (src alt : string)
| NoPosterAvailable.

Record Card : Type := {
  cardKey : string;
  cardPoster : PosterView;
  cardTitle : string;
  cardYear : string;
  cardRuntime : string
}.

Definition card (movie : Movie) : Card :=
  {| cardKey := Title movie;
     cardPoster := match Poster movie with
                   | Some (String c src) =>
                       PosterImage (String c src) (Title movie)
                   | Some EmptyString | None => NoPosterAvailable
                   end;
     cardTitle := Title movie;
     cardYear := Year movie;
     cardRuntime := getRuntime (Runtime movie) |}.

Inductive Screen : Type :=
| LoadingScreen
| ErrorScreen (message : string)
| MovieGrid (cards : list Card) (noResults : bool).

Definition render (localeCompare : string -> string -> Z) (s : State)
  : Screen :=
  if isLoading s then LoadingScreen
  else match error s with
       | Some (String c m) => ErrorScreen (String c m)
       | Some EmptyString | None =>
           let view := filteredMovies localeCompare (movies s) (filters s) in
           MovieGrid (List.map card view) (Nat.eqb (List.length view) 0)
       end.

(** A run of user inputs, each a call of [handleFilterChange]. *)
Definition userInputs (inputs : list (FilterKey * string)) (s : State)
  : State :=
  List.fold_left (fun st kv => handleFilterChange (fst kv) (snd kv) st)
    inputs s.

(** ** Vocabulary for the numeric sort keys *)

(** The field [key] of [a] and of [b] are numbers, [a]'s not the smaller. *)
Definition keyAtLeast (key : Movie -> string) (a b : Movie) : Prop :=
  exists ka kb,
    JS.parseInt (key a) = JS.Num ka /\ JS.parseInt (key b) = JS.Num kb /\
    kb <= ka.

Definition keysParse (key : Movie -> string) (l : list Movie) : Prop :=
  forall movie, In movie l -> exists k, JS.parseInt (key movie) = JS.Num k.

(** The number in the field, zero when there is none. *)
Definition numericKey (key : Movie -> string) (movie : Movie) : Z :=
  match JS.parseInt (key movie) with
  | JS.Num k => k
  | JS.NaN | JS.Inf _ => 0
  end.

Definition sameKey (key : Movie -> string) (a b : Movie) : bool :=
  numericKey key a =? numericKey key b.

(** The comparator [(a, b) => parseInt(b.key) - parseInt(a.key)]. *)
Definition descendingBy (key : Movie -> string) (a b : Movie) : JS.number :=
  JS.sub (JS.parseInt (key b)) (JS.parseInt (key a)).

(** The same on the numbers in the fields. *)
Definition descendingByNumber (key : Movie -> string) (a b : Movie)
  : JS.number :=
  JS.sub (JS.Num (numericKey key b)) (JS.Num (numericKey key a)).

(** The field the numeric sorts read, if [sortBy] selects one. *)
Definition numericField (f : FilterOptions) : option (Movie -> string) :=
  if (sortBy f =? "Year")%string then Some Year
  else if (sortBy f =? "Runtime")%string then Some Runtime
  else None.

(** A collation that orders all strings as a total preorder. *)
Record totalPreorder (localeCompare : string -> string -> Z) : Prop := {
  collation_refl : forall a, localeCompare a a = 0;
  collation_flip : forall a b, 0 < localeCompare a b <-> localeCompare b a < 0;
  collation_trans :
    forall a b c, localeCompare a b <= 0 -> localeCompare b c <= 0 ->
                  localeCompare a c <= 0
}.

(** The sort has what it needs to order [l]: the numeric field it reads
    parses in every movie of [l], or it compares Titles with a collation
    that is a total preorder. *)
Definition sortable (localeCompare : string -> string -> Z)
  (f : FilterOptions) (l : list Movie) : Prop :=
  match numericField f with
  | Some key => keysParse key l
  | None => totalPreorder localeCompare
  end.

(** More sample data. *)
Definition sequel : Movie :=
  {| Title := "Alpha Returns"; Year := "2010"; Runtime := "95 min";
     Poster := Some ""%string |}.

Definition loadedSample : State :=
  {| movies := [zeta; alpha; matrix; sequel]; isLoading := false;
     error := None;
     filters := {| searchTerm := "zz"; sortBy := "Title" |} |}.

(** Text at which a decimal numeral ends for [parseInt]: nothing, or
    text whose first character is neither a decimal digit nor x or X. *)
Definition stopsNumeral (rest : string) : bool :=
  match rest with
  | EmptyString => true
  | String c _ =>
      negb ((48 <=? JS.code c) && (JS.code c <=? 57))%N
      && negb (c =? "x")%char && negb (c =? "X")%char
  end.

(** * Properties *)

(** ** Built-ins on examples *)

Example parseInt_90 : JS.parseInt "90" = JS.Num 90.
Proof. reflexivity. Qed.

Example parseInt_trailing_text : JS.parseInt "  120 min" = JS.Num 120.
Proof. reflexivity. Qed.

Example parseInt_hex : JS.parseInt "0x1F" = JS.Num 31.
Proof. reflexivity. Qed.

Example parseInt_no_digits : JS.parseInt "N/A" = JS.NaN.
Proof. reflexivity. Qed.

Example parseInt_negative : JS.parseInt "-7" = JS.Num (-7).
Proof. reflexivity. Qed.

Example toLowerCase_mixed : JS.toLowerCase "The MATRIX" = "the matrix"%string.
Proof. reflexivity. Qed.

Example includes_inner : JS.includes "the matrix" "matr" = true.
Proof. reflexivity. Qed.

Example includes_absent : JS.includes "the matrix" "zz" = false.
Proof. reflexivity. Qed.

Example roundDouble_tie_to_even :
  JS.roundDouble 9007199254740993 = JS.Num 9007199254740992
  /\ JS.roundDouble 9007199254740995 = JS.Num 9007199254740996.
Proof. split; reflexivity. Qed.

Example roundDouble_1e23 :
  JS.roundDouble (10 ^ 23) = JS.Num 99999999999999991611392.
Proof. vm_compute. reflexivity. Qed.

Example roundDouble_overflow :
  JS.roundDouble (2 ^ 1024) = JS.Inf false
  /\ JS.roundDouble (- (2 ^ 1024)) = JS.Inf true
  /\ JS.roundDouble (2 ^ 1024 - 2 ^ 970 - 1)
     = JS.Num ((2 ^ 53 - 1) * 2 ^ 971).
Proof. repeat split; vm_compute; reflexivity. Qed.

Example parseInt_beyond_safe_integers :
  JS.parseInt "9007199254740993" = JS.Num 9007199254740992.
Proof. vm_compute. reflexivity. Qed.

Example getRuntime_infinite :
  JS.parseInt (JS.toString (JS.Num (- (10 ^ 400)))) = JS.Inf true
  /\ getRuntime (JS.toString (JS.Num (- (10 ^ 400)))) = "NaNm"%string
  /\ getRuntime (JS.toString (JS.Num (10 ^ 400))) = "Infinityh NaNm"%string.
Proof. repeat split; vm_compute; reflexivity. Qed.

Example getRuntime_not_numeric : getRuntime "N/A" = "NaNm"%string.
Proof. reflexivity. Qed.

Example getRuntime_negative : getRuntime "-90" = "-30m"%string.
Proof. reflexivity. Qed.

(** ** Rounding to a double *)

Module NumberFacts.
Import JS.

Lemma roundDouble_safe (z : Z) :
  Z.abs z < 9007199254740992 -> roundDouble z = Num z.
Proof.
  intros H. unfold roundDouble.
  destruct (Z.ltb_spec (Z.abs z) 9007199254740992); [reflexivity | lia].
Qed.

(** Rounding keeps the sign: only zero rounds to zero. *)
Lemma sign_roundDouble (z : Z) : sign (roundDouble z) = Z.sgn z.
Proof.
  unfold roundDouble.
  destruct (Z.ltb_spec (Z.abs z) 9007199254740992) as [|Hbig];
    [reflexivity|].
  cbv zeta.
  set (a := Z.abs z) in *. set (shift := Z.log2 a - 52).
  set (q := Z.shiftr a shift).
  match goal with
  | |- context [if ?c then q + 1 else q] =>
      set (q' := if c then q + 1 else q)
  end.
  assert (Hlog : 53 <= Z.log2 a).
  { change 53 with (Z.log2 9007199254740992). now apply Z.log2_le_mono. }
  assert (Hshift : 0 <= shift) by (unfold shift; lia).
  assert (Hq : 1 <= q).
  { unfold q. rewrite Z.shiftr_div_pow2 by assumption.
    apply Z.div_le_lower_bound; [apply Z.pow_pos_nonneg; lia|].
    rewrite Z.mul_1_r.
    transitivity (2 ^ Z.log2 a).
    - apply Z.pow_le_mono_r; unfold shift; lia.
    - apply Z.log2_spec. lia. }
  assert (Hq' : 1 <= q').
  { unfold q'. match goal with |- context [if ?c then _ else _] =>
      destruct c end; lia. }
  assert (Hm : 0 < Z.shiftl q' shift).
  { rewrite Z.shiftl_mul_pow2 by assumption.
    apply Z.mul_pos_pos; [lia | apply Z.pow_pos_nonneg; lia]. }
  destruct (Z.shiftl 1 1024 <=? Z.shiftl q' shift); cbn [sign].
  - destruct (Z.ltb_spec z 0); lia.
  - rewrite Z.sgn_mul, (Z.sgn_pos (Z.shiftl q' shift)) by assumption. lia.
Qed.

Lemma negate_roundDouble (z : Z) : negate (roundDouble z) = roundDouble (- z).
Proof.
  unfold roundDouble. rewrite Z.abs_opp.
  destruct (Z.ltb_spec (Z.abs z) 9007199254740992) as [|Hbig];
    [reflexivity|].
  match goal with
  | |- context [Z.shiftl 1 1024 <=? ?m] =>
      destruct (Z.shiftl 1 1024 <=? m); cbn [negate]
  end.
  - f_equal. destruct (Z.ltb_spec z 0), (Z.ltb_spec (- z) 0); try reflexivity;
      lia.
  - f_equal. rewrite Z.sgn_opp. ring.
Qed.

Lemma SortCompare_sign {A} (c : A -> A -> number) (x y : A) :
  Z.sgn (SortCompare c x y) = sign (c x y).
Proof. unfold SortCompare, sign. destruct (c x y) as [|v|[]]; reflexivity. Qed.

(** The comparator reads the sign of a difference as that of the exact
    difference. *)
Lemma sign_sub (x y : Z) : sign (sub (Num x) (Num y)) = Z.sgn (x - y).
Proof. apply sign_roundDouble. Qed.

(** Swapping the operands of a difference swaps its sign. *)
Lemma sign_sub_flip (a b : number) : sign (sub a b) = - sign (sub b a).
Proof.
  destruct a as [|x|s], b as [|y|t]; try reflexivity.
  - rewrite !sign_sub, <- Z.sgn_opp. f_equal. ring.
  - destruct t; reflexivity.
  - destruct s; reflexivity.
  - destruct s, t; reflexivity.
Qed.

End NumberFacts.

(** ** parseInt reads back what number rendering writes *)

Module ParseFacts.
Import JS.

Lemma decimalPrefix_string_of_uint (d : Decimal.uint) :
  decimalPrefix (DecimalString.NilEmpty.string_of_uint d) = d.
Proof. induction d; simpl; congruence. Qed.

Lemma trimStart_digits (d : Decimal.uint) :
  trimStart (DecimalString.NilEmpty.string_of_uint d)
  = DecimalString.NilEmpty.string_of_uint d.
Proof. destruct d; reflexivity. Qed.

Lemma parseMagnitude_digits (d : Decimal.uint) :
  parseMagnitude (DecimalString.NilEmpty.string_of_uint d)
  = decimalValue (DecimalString.NilEmpty.string_of_uint d).
Proof.
  destruct d as [|d|d|d|d|d|d|d|d|d|d]; try reflexivity.
  destruct d; reflexivity.
Qed.

Lemma decimalValue_digits (d : Decimal.uint) :
  d <> Decimal.Nil ->
  decimalValue (DecimalString.NilEmpty.string_of_uint d)
  = roundDouble (Z.of_uint d).
Proof.
  intros Hd. unfold decimalValue. rewrite decimalPrefix_string_of_uint.
  destruct d; congruence.
Qed.

Lemma parseInt_digits (d : Decimal.uint) :
  d <> Decimal.Nil ->
  parseInt (DecimalString.NilEmpty.string_of_uint d)
  = roundDouble (Z.of_uint d).
Proof.
  intros Hd. unfold parseInt. rewrite trimStart_digits.
  rewrite <- (decimalValue_digits d Hd), <- parseMagnitude_digits.
  destruct d; reflexivity.
Qed.

Lemma to_uint_not_nil (p : positive) : Pos.to_uint p <> Decimal.Nil.
Proof.
  intros H. pose proof (DecimalPos.Unsigned.of_to p) as E.
  rewrite H in E. discriminate.
Qed.

Lemma of_uint_to_uint (p : positive) : Z.of_uint (Pos.to_uint p) = Z.pos p.
Proof. exact (DecimalZ.of_to (Z.pos p)). Qed.

Lemma string_of_uint_pos (p : positive) :
  DecimalString.NilZero.string_of_uint (Pos.to_uint p)
  = DecimalString.NilEmpty.string_of_uint (Pos.to_uint p).
Proof.
  pose proof (to_uint_not_nil p) as Hp.
  unfold DecimalString.NilZero.string_of_uint.
  destruct (Pos.to_uint p); [congruence | reflexivity ..].
Qed.

(** The decimal digits of an integer are read as the double nearest to
    it. *)
Lemma parseInt_numeral_rounds (z : Z) :
  parseInt (toString (Num z)) = roundDouble z.
Proof.
  destruct z as [|p|p]; [reflexivity | |]; unfold toString; simpl Z.to_int;
    unfold DecimalString.NilZero.string_of_int; rewrite string_of_uint_pos.
  - rewrite parseInt_digits by apply to_uint_not_nil.
    now rewrite of_uint_to_uint.
  - unfold parseInt. cbn [trimStart isStrWhiteSpaceChar]. cbv beta.
    change (isStrWhiteSpaceChar "-") with false. cbv iota.
    rewrite parseMagnitude_digits, decimalValue_digits by apply to_uint_not_nil.
    rewrite of_uint_to_uint. apply NumberFacts.negate_roundDouble.
Qed.

(** Every integer below 2^53 in magnitude is read back from its decimal
    rendering. *)
Lemma parseInt_toString (z : Z) :
  Z.abs z < 9007199254740992 -> parseInt (toString (Num z)) = Num z.
Proof.
  intros H. rewrite parseInt_numeral_rounds.
  now apply NumberFacts.roundDouble_safe.
Qed.

End ParseFacts.

(** ** Facts about the sort *)

Module SortFacts.
Import JS.

Section WithComparator.
Context {A : Type} (comparefn : A -> A -> number).

Lemma insert_Permutation (x : A) (l : list A) :
  Permutation (insert comparefn x l) (x :: l).
Proof.
  induction l as [|y l IH]; simpl; [reflexivity|].
  destruct (0 <? SortCompare comparefn x y); [|reflexivity].
  rewrite IH. apply perm_swap.
Qed.

Lemma sort_Permutation (l : list A) : Permutation (sort comparefn l) l.
Proof.
  induction l as [|x l IH]; simpl; [reflexivity|].
  rewrite insert_Permutation. now constructor.
Qed.

Lemma sort_In (x : A) (l : list A) : In x (sort comparefn l) <-> In x l.
Proof.
  split; apply Permutation_in;
    [apply sort_Permutation | symmetry; apply sort_Permutation].
Qed.

(** A list in order is left as it is: no pair is ever swapped. *)
Lemma sort_Sorted_fixed (l : list A) :
  Sorted (before comparefn) l -> sort comparefn l = l.
Proof.
  induction 1 as [|x l Hl IH Hd]; simpl; [reflexivity|].
  rewrite IH. destruct Hd as [|y l' Hxy]; simpl; [reflexivity|].
  unfold before in Hxy.
  destruct (Z.ltb_spec 0 (SortCompare comparefn x y)); [lia | reflexivity].
Qed.

(** The comparator never asks for both orders of a pair. *)
Hypothesis no_two_way_swap :
  forall x y, 0 < SortCompare comparefn x y -> SortCompare comparefn y x <= 0.

Lemma insert_HdRel (a x : A) (l : list A) :
  before comparefn a x -> HdRel (before comparefn) a l -> HdRel (before comparefn) a (insert comparefn x l).
Proof.
  intros Hax Hal. destruct l as [|y l]; simpl; [now constructor|].
  destruct (0 <? SortCompare comparefn x y); constructor;
    [now inversion Hal | assumption].
Qed.

Lemma insert_Sorted (x : A) (l : list A) :
  Sorted (before comparefn) l -> Sorted (before comparefn) (insert comparefn x l).
Proof.
  induction 1 as [|y l Hl IH Hd]; simpl; [repeat constructor|].
  destruct (Z.ltb_spec 0 (SortCompare comparefn x y)) as [Hgt|Hle].
  - constructor; [assumption|].
    apply insert_HdRel; [now apply no_two_way_swap | assumption].
  - repeat constructor; assumption.
Qed.

Lemma sort_Sorted (l : list A) : Sorted (before comparefn) (sort comparefn l).
Proof.
  induction l as [|x l IH]; simpl; [constructor | now apply insert_Sorted].
Qed.

Lemma sort_idempotent (l : list A) :
  sort comparefn (sort comparefn l) = sort comparefn l.
Proof. apply sort_Sorted_fixed, sort_Sorted. Qed.

End WithComparator.

(** For a consistent comparator the stable sorted arrangement of a list is
    unique, and [sort] returns it: any sort that meets the language's
    requirements returns the list [sort] returns. *)
Section Consistent.
Context {A : Type} (comparefn : A -> A -> number).
Hypothesis Hc : consistent comparefn.

Lemma tied_refl (x : A) : tied comparefn x x = true.
Proof. unfold tied. rewrite (consistent_refl _ Hc). reflexivity. Qed.

Lemma tied_sym (x y : A) : tied comparefn x y = tied comparefn y x.
Proof.
  unfold tied. pose proof (consistent_flip _ Hc x y).
  pose proof (consistent_flip _ Hc y x).
  destruct (Z.eqb_spec (SortCompare comparefn x y) 0),
           (Z.eqb_spec (SortCompare comparefn y x) 0); lia.
Qed.

Lemma tied_iff (x y : A) :
  tied comparefn x y = true <-> before comparefn x y /\ before comparefn y x.
Proof.
  unfold tied, before. pose proof (consistent_flip _ Hc x y).
  pose proof (consistent_flip _ Hc y x). rewrite Z.eqb_eq. lia.
Qed.

Lemma tied_trans (x y z : A) :
  tied comparefn x y = true -> tied comparefn y z = true ->
  tied comparefn x z = true.
Proof.
  rewrite !tied_iff. intros [Hxy Hyx] [Hyz Hzy].
  split; eapply (consistent_trans _ Hc); eassumption.
Qed.

Lemma insert_stable (x a : A) (l : list A) :
  List.filter (tied comparefn x) (insert comparefn a l)
  = List.filter (tied comparefn x) (a :: l).
Proof.
  induction l as [|y l IH]; [reflexivity|].
  cbn [insert]. destruct (Z.ltb_spec 0 (SortCompare comparefn a y)) as [Hgt|];
    [|reflexivity].
  cbn [List.filter] in *. rewrite IH.
  destruct (tied comparefn x a) eqn:Hxa; [|reflexivity].
  destruct (tied comparefn x y) eqn:Hxy; [|reflexivity].
  rewrite tied_sym in Hxa. pose proof (tied_trans _ _ _ Hxa Hxy) as Hay.
  unfold tied in Hay. apply Z.eqb_eq in Hay. lia.
Qed.

Lemma sort_stable (x : A) (l : list A) :
  List.filter (tied comparefn x) (sort comparefn l)
  = List.filter (tied comparefn x) l.
Proof.
  induction l as [|a l IH]; [reflexivity|].
  cbn [sort]. rewrite insert_stable. cbn [List.filter]. now rewrite IH.
Qed.

Lemma sort_stableSortOf (l : list A) :
  stableSortOf comparefn l (sort comparefn l).
Proof.
  split; [apply sort_Permutation|]. split; [|intros x; apply sort_stable].
  apply sort_Sorted. intros x y Hxy. apply (consistent_flip _ Hc) in Hxy. lia.
Qed.

Lemma filter_tied_head (a : A) (l : list A) :
  List.filter (tied comparefn a) (a :: l)
  = a :: List.filter (tied comparefn a) l.
Proof. cbn [List.filter]. now rewrite tied_refl. Qed.

Lemma Sorted_head_before (a x : A) (l : list A) :
  Sorted (before comparefn) (a :: l) -> In x l -> before comparefn a x.
Proof.
  intros Hs Hin. apply Sorted_StronglySorted in Hs.
  - apply StronglySorted_inv in Hs as [_ Hall].
    rewrite List.Forall_forall in Hall. now apply Hall.
  - intros u v w. apply (consistent_trans _ Hc).
Qed.

Lemma stable_heads_equal (a b : A) (l1 l2 : list A) :
  Sorted (before comparefn) (a :: l1) -> Sorted (before comparefn) (b :: l2) ->
  (forall x, List.filter (tied comparefn x) (a :: l1)
             = List.filter (tied comparefn x) (b :: l2)) ->
  a = b.
Proof.
  intros H1 H2 Heq.
  pose proof (Heq a) as Ha. rewrite filter_tied_head in Ha.
  pose proof (Heq b) as Hb. rewrite filter_tied_head in Hb.
  cbn [List.filter] in Ha, Hb.
  destruct (tied comparefn a b) eqn:Hab; [congruence|].
  rewrite tied_sym, Hab in Hb.
  assert (In a l2) as Hin2.
  { eapply (proj1 (List.filter_In _ _ _)). rewrite <- Ha. now left. }
  assert (In b l1) as Hin1.
  { eapply (proj1 (List.filter_In _ _ _)). rewrite Hb. now left. }
  pose proof (Sorted_head_before _ _ _ H1 Hin1).
  pose proof (Sorted_head_before _ _ _ H2 Hin2).
  assert (tied comparefn a b = true) by now apply tied_iff.
  congruence.
Qed.

Lemma stable_sorted_unique (l1 l2 : list A) :
  Sorted (before comparefn) l1 -> Sorted (before comparefn) l2 ->
  (forall x, List.filter (tied comparefn x) l1
             = List.filter (tied comparefn x) l2) ->
  l1 = l2.
Proof.
  revert l2. induction l1 as [|a l1 IH]; intros [|b l2] H1 H2 Heq.
  - reflexivity.
  - specialize (Heq b). rewrite filter_tied_head in Heq. discriminate.
  - specialize (Heq a). rewrite filter_tied_head in Heq. discriminate.
  - pose proof (stable_heads_equal a b l1 l2 H1 H2 Heq) as <-.
    f_equal. apply IH.
    + now inversion H1.
    + now inversion H2.
    + intros x. specialize (Heq x). cbn [List.filter] in Heq.
      destruct (tied comparefn x a); congruence.
Qed.

Theorem sort_unique (l l' : list A) :
  stableSortOf comparefn l l' -> l' = sort comparefn l.
Proof.
  intros (_ & Hs & Hst).
  destruct (sort_stableSortOf l) as (_ & Hs' & Hst').
  apply stable_sorted_unique; try assumption.
  intros x. now rewrite Hst, Hst'.
Qed.

End Consistent.

(** The usual numeric comparator [(a, b) => a - b] is consistent. *)
Example consistent_numeric : consistent (fun a b : Z => Num (a - b)).
Proof.
  split; unfold before, SortCompare; intros; lia.
Qed.

(** Order can be read in a weaker or stronger relation on the members. *)
Lemma Sorted_impl_In {A} (R R' : A -> A -> Prop) (l : list A) :
  (forall a b, In a l -> In b l -> R a b -> R' a b) ->
  Sorted R l -> Sorted R' l.
Proof.
  intros HR Hs. induction Hs as [|x l Hl IH Hd]; [constructor|].
  constructor.
  - apply IH. intros a b Ha Hb. apply HR; now right.
  - destruct Hd as [|y l' Hxy]; constructor.
    apply HR; [now left | right; now left | assumption].
Qed.

Lemma filter_all {A} (p : A -> bool) (l : list A) :
  (forall x, In x l -> p x = true) -> List.filter p l = l.
Proof.
  induction l as [|x l IH]; simpl; intros H; [reflexivity|].
  rewrite (H x) by now left. f_equal. apply IH. intros y Hy. apply H. now right.
Qed.

End SortFacts.

(** ** Facts about substring search *)

Module StringFacts.
Import JS.
Local Open Scope string_scope.

Lemma append_String (c : ascii) (t post : string) :
  String c t ++ post = String c (t ++ post).
Proof. reflexivity. Qed.

Lemma append_empty (post : string) : "" ++ post = post.
Proof. reflexivity. Qed.

Lemma prefix_app (t s : string) :
  String.prefix t s = true <-> exists post, s = t ++ post.
Proof.
  revert s. induction t as [|c t IH]; intros s; simpl.
  - split; [intros _; now exists s | intros _; now destruct s].
  - destruct s as [|d s]; simpl.
    + split; [discriminate | intros [post H]; discriminate].
    + destruct (Ascii.ascii_dec c d) as [->|Hne].
      * rewrite IH.
        split; intros [post H]; exists post; rewrite append_String in *;
          congruence.
      * split; [discriminate|].
        intros [post H]. rewrite append_String in H. congruence.
Qed.

(** [includes] finds exactly the substrings. *)
Lemma includes_substring (s t : string) :
  includes s t = true <-> exists pre post, s = pre ++ t ++ post.
Proof.
  induction s as [|c s IH]; cbn [includes].
  - rewrite orb_false_r, prefix_app. split.
    + intros [post H]. now exists "", post.
    + intros [pre [post H]]. destruct pre; [now exists post | discriminate].
  - rewrite orb_true_iff, IH, prefix_app. split.
    + intros [[post H] | [pre [post H]]].
      * now exists "", post.
      * exists (String c pre), post. rewrite append_String. now rewrite H.
    + intros [pre [post H]]. destruct pre as [|d pre].
      * left. now exists post.
      * right. exists pre, post. rewrite append_String in H. congruence.
Qed.

Lemma includes_empty (s : string) : includes s "" = true.
Proof. destruct s; reflexivity. Qed.

End StringFacts.

(** ** The derivation pipeline *)

Example filteredMovies_by_Title :
  filteredMovies codeUnitCompare [zeta; alpha]
    {| searchTerm := ""; sortBy := "Title" |} = [alpha; zeta].
Proof. reflexivity. Qed.

Example filteredMovies_search :
  filteredMovies codeUnitCompare [zeta; alpha; matrix]
    {| searchTerm := "MAT"; sortBy := "Title" |} = [matrix].
Proof. reflexivity. Qed.

Example filteredMovies_by_Year :
  filteredMovies codeUnitCompare [zeta; alpha; matrix]
    {| searchTerm := ""; sortBy := "Year" |} = [alpha; zeta; matrix].
Proof. reflexivity. Qed.

(** Two Years that are one double keep their raw order. *)
Example filteredMovies_by_Year_one_double :
  filteredMovies codeUnitCompare
    [ {| Title := "A"; Year := "9007199254740992"; Runtime := "90";
         Poster := None |};
      {| Title := "B"; Year := "9007199254740993"; Runtime := "90";
         Poster := None |} ]
    {| searchTerm := ""; sortBy := "Year" |}
  = [ {| Title := "A"; Year := "9007199254740992"; Runtime := "90";
         Poster := None |};
      {| Title := "B"; Year := "9007199254740993"; Runtime := "90";
         Poster := None |} ].
Proof. vm_compute. reflexivity. Qed.

Example filteredMovies_by_Runtime :
  filteredMovies codeUnitCompare [zeta; alpha; matrix]
    {| searchTerm := ""; sortBy := "Runtime" |} = [matrix; alpha; zeta].
Proof. reflexivity. Qed.

Lemma codeUnitCompare_antisymmetric : antisymmetric codeUnitCompare.
Proof.
  intros a b. unfold codeUnitCompare. rewrite (String.compare_antisym b a).
  destruct (String.compare a b); simpl; lia.
Qed.

Section DerivationFacts.
Variable localeCompare : string -> string -> Z.

Lemma filteredMovies_In (l : list Movie) (f : FilterOptions) (movie : Movie) :
  In movie (filteredMovies localeCompare l f)
  <-> In movie l /\ matchesSearch f movie = true.
Proof.
  unfold filteredMovies. rewrite SortFacts.sort_In. apply List.filter_In.
Qed.

(** C1.  The view list holds exactly the movies of the raw list whose
    lower-cased Title contains the lower-cased search term as a substring,
    each as often as the raw list holds it; with an empty search term it
    holds every movie. *)
Theorem filteredMovies_exactly_matching :
  (forall l f,
     Permutation (filteredMovies localeCompare l f)
                 (List.filter (matchesSearch f) l))
  /\ (forall l f movie,
        In movie (filteredMovies localeCompare l f)
        <-> In movie l /\
            exists pre post,
              JS.toLowerCase (Title movie)
              = (pre ++ JS.toLowerCase (searchTerm f) ++ post)%string)
  /\ (forall l key,
        Permutation
          (filteredMovies localeCompare l {| searchTerm := ""; sortBy := key |})
          l).
Proof.
  split; [|split].
  - intros l f. apply SortFacts.sort_Permutation.
  - intros l f movie. rewrite filteredMovies_In. unfold matchesSearch.
    now rewrite StringFacts.includes_substring.
  - intros l key. unfold filteredMovies.
    rewrite SortFacts.sort_Permutation, SortFacts.filter_all; [reflexivity|].
    intros movie _. unfold matchesSearch. simpl.
    apply StringFacts.includes_empty.
Qed.

(** Any stable sort in place of [JS.sort] yields the same view list when
    the comparator is consistent. *)
Lemma filteredMovies_unique (l l' : list Movie) (f : FilterOptions) :
  JS.consistent (compareFn localeCompare f) ->
  JS.stableSortOf (compareFn localeCompare f)
    (List.filter (matchesSearch f) l) l' ->
  l' = filteredMovies localeCompare l f.
Proof. intros Hc Hs. now apply SortFacts.sort_unique. Qed.

(** *** Sorting by Year *)

Lemma SortCompare_Year (f : FilterOptions) (a b : Movie) (ya yb : Z) :
  sortBy f = "Year"%string ->
  JS.parseInt (Year a) = JS.Num ya -> JS.parseInt (Year b) = JS.Num yb ->
  Z.sgn (JS.SortCompare (compareFn localeCompare f) a b) = Z.sgn (yb - ya).
Proof.
  intros Hf Ha Hb. rewrite NumberFacts.SortCompare_sign. unfold compareFn.
  rewrite Hf, String.eqb_refl, Ha, Hb. apply NumberFacts.sign_sub.
Qed.

Lemma compareFn_Year_antisymmetric (f : FilterOptions) (a b : Movie) :
  sortBy f = "Year"%string ->
  0 < JS.SortCompare (compareFn localeCompare f) a b ->
  JS.SortCompare (compareFn localeCompare f) b a <= 0.
Proof.
  intros Hf Hab.
  pose proof (NumberFacts.SortCompare_sign (compareFn localeCompare f) a b)
    as Sab.
  pose proof (NumberFacts.SortCompare_sign (compareFn localeCompare f) b a)
    as Sba.
  unfold compareFn in Sab at 2, Sba at 2.
  rewrite Hf, String.eqb_refl in Sab, Sba.
  rewrite NumberFacts.sign_sub_flip in Sba. lia.
Qed.

Lemma yearAtLeast_trans (a b c : Movie) :
  yearAtLeast a b -> yearAtLeast b c -> yearAtLeast a c.
Proof.
  intros (ya & yb & Ha & Hb & Hab) (yb' & yc & Hb' & Hc & Hbc).
  exists ya, yc. rewrite Hb in Hb'. injection Hb' as <-.
  repeat split; try assumption. lia.
Qed.

Lemma filteredMovies_Year_descending (l : list Movie) (f : FilterOptions) :
  sortBy f = "Year"%string -> yearsParse l ->
  StronglySorted yearAtLeast (filteredMovies localeCompare l f).
Proof.
  intros Hf Hl. apply Sorted_StronglySorted.
  { intros a b c. apply yearAtLeast_trans. }
  apply SortFacts.Sorted_impl_In
    with (R := JS.before (compareFn localeCompare f)).
  - intros a b Ha Hb Hab.
    apply filteredMovies_In in Ha as [Ha _], Hb as [Hb _].
    destruct (Hl a Ha) as [ya Hya], (Hl b Hb) as [yb Hyb].
    exists ya, yb. repeat split; try assumption.
    unfold JS.before in Hab.
    pose proof (SortCompare_Year f a b ya yb Hf Hya Hyb). lia.
  - apply SortFacts.sort_Sorted. intros x y.
    now apply compareFn_Year_antisymmetric.
Qed.

(** C3.  With sortBy = Year and every Year of the raw list parsing to an
    integer, the first movie of the view list has a Year at least that of
    every other movie of the view list. *)
Theorem sort_by_Year_latest_first (l : list Movie) (f : FilterOptions)
  (first : Movie) (rest : list Movie) :
  sortBy f = "Year"%string ->
  yearsParse l ->
  filteredMovies localeCompare l f = first :: rest ->
  forall movie, In movie rest -> yearAtLeast first movie.
Proof.
  intros Hf Hl Hview movie Hin.
  pose proof (filteredMovies_Year_descending l f Hf Hl) as Hs.
  rewrite Hview in Hs. apply StronglySorted_inv in Hs as [_ Hall].
  rewrite List.Forall_forall in Hall. now apply Hall.
Qed.

(** *** Sorting by Title *)

Lemma before_Title (f : FilterOptions) (a b : Movie) :
  sortBy f = "Title"%string ->
  JS.before (compareFn localeCompare f) a b
  <-> localeCompare (Title a) (Title b) <= 0.
Proof.
  intros Hf. unfold JS.before, JS.SortCompare, compareFn. rewrite Hf.
  reflexivity.
Qed.

Lemma sortedByTitle_before (f : FilterOptions) (l : list Movie) :
  sortBy f = "Title"%string ->
  sortedByTitle localeCompare l
  <-> Sorted (JS.before (compareFn localeCompare f)) l.
Proof.
  intros Hf. unfold sortedByTitle.
  split; apply SortFacts.Sorted_impl_In; intros a b _ _;
    now rewrite (before_Title f a b Hf).
Qed.

(** C4.  With sortBy = Title, a list already in Title order comes back
    from the sort in the same order; and, the collation being
    antisymmetric, the sort puts any list in Title order, so that sorting
    twice is sorting once, for the sort alone and for the whole
    pipeline. *)
Theorem sort_by_Title_idempotent (f : FilterOptions) :
  sortBy f = "Title"%string ->
  (forall l, sortedByTitle localeCompare l ->
             JS.sort (compareFn localeCompare f) l = l)
  /\ (antisymmetric localeCompare ->
      forall l,
        sortedByTitle localeCompare (JS.sort (compareFn localeCompare f) l)
        /\ JS.sort (compareFn localeCompare f)
             (JS.sort (compareFn localeCompare f) l)
           = JS.sort (compareFn localeCompare f) l
        /\ filteredMovies localeCompare (filteredMovies localeCompare l f) f
           = filteredMovies localeCompare l f).
Proof.
  intros Hf. split.
  - intros l Hl. apply SortFacts.sort_Sorted_fixed.
    now apply sortedByTitle_before.
  - intros Hanti l.
    assert (Hcmp : forall x y,
               0 < JS.SortCompare (compareFn localeCompare f) x y ->
               JS.SortCompare (compareFn localeCompare f) y x <= 0).
    { intros x y. unfold JS.SortCompare, compareFn. rewrite Hf. simpl.
      apply Hanti. }
    split; [|split].
    + apply (sortedByTitle_before f); [assumption|].
      now apply SortFacts.sort_Sorted.
    + now apply SortFacts.sort_idempotent.
    + unfold filteredMovies at 1. rewrite SortFacts.filter_all.
      * unfold filteredMovies. now apply SortFacts.sort_idempotent.
      * intros movie Hin. now apply filteredMovies_In in Hin.
Qed.

End DerivationFacts.

(** *** Witnesses on the sample data *)

Lemma sort_by_Year_latest_first_witness :
  sortBy {| searchTerm := ""; sortBy := "Year" |} = "Year"%string
  /\ yearsParse [zeta; alpha; matrix]
  /\ filteredMovies codeUnitCompare [zeta; alpha; matrix]
       {| searchTerm := ""; sortBy := "Year" |} = [alpha; zeta; matrix]
  /\ yearAtLeast alpha matrix.
Proof.
  assert (Hparse : yearsParse [zeta; alpha; matrix]).
  { intros movie [<-|[<-|[<-|[]]]]; eexists; reflexivity. }
  split; [reflexivity|]. split; [exact Hparse|]. split; [reflexivity|].
  apply (sort_by_Year_latest_first codeUnitCompare [zeta; alpha; matrix]
           {| searchTerm := ""; sortBy := "Year" |} alpha [zeta; matrix]
           eq_refl Hparse eq_refl matrix).
  simpl. auto.
Defined.

Lemma sortedByTitle_sample : sortedByTitle codeUnitCompare [alpha; matrix; zeta].
Proof. repeat constructor; unfold codeUnitCompare; simpl; lia. Qed.

Lemma sort_by_Title_idempotent_witness :
  sortBy {| searchTerm := ""; sortBy := "Title" |} = "Title"%string
  /\ sortedByTitle codeUnitCompare [alpha; matrix; zeta]
  /\ antisymmetric codeUnitCompare
  /\ JS.sort (compareFn codeUnitCompare {| searchTerm := ""; sortBy := "Title" |})
       [alpha; matrix; zeta]
     = [alpha; matrix; zeta]
  /\ JS.sort (compareFn codeUnitCompare {| searchTerm := ""; sortBy := "Title" |})
       (JS.sort (compareFn codeUnitCompare
                   {| searchTerm := ""; sortBy := "Title" |})
          [zeta; matrix; alpha])
     = JS.sort (compareFn codeUnitCompare
                  {| searchTerm := ""; sortBy := "Title" |})
         [zeta; matrix; alpha].
Proof.
  split; [reflexivity|]. split; [exact sortedByTitle_sample|].
  split; [exact codeUnitCompare_antisymmetric|].
  pose proof (sort_by_Title_idempotent codeUnitCompare
                {| searchTerm := ""; sortBy := "Title" |} eq_refl)
    as [Hfixed Hsort].
  split.
  - exact (Hfixed [alpha; matrix; zeta] sortedByTitle_sample).
  - exact (proj1 (proj2
             (Hsort codeUnitCompare_antisymmetric [zeta; matrix; alpha]))).
Defined.

(** ** getRuntime *)

(** C2 as stated fails beyond the integers a double holds exactly: the
    Runtime "9007199254740993" is the decimal integer 2^53 + 1, whose
    remainder by 60 is 33, and [parseInt] reads it as the double 2^53, so
    that [getRuntime] returns 32 minutes. *)
Lemma getRuntime_beyond_safe_integers :
  JS.toString (JS.Num 9007199254740993) = "9007199254740993"%string
  /\ 0 <= 9007199254740993
  /\ getRuntime "9007199254740993" = "150119987579016h 32m"%string
  /\ getRuntime "9007199254740993"
     <> (JS.toString (JS.Num (9007199254740993 / 60)) ++ "h "
         ++ JS.toString (JS.Num (9007199254740993 mod 60)) ++ "m")%string.
Proof.
  split; [reflexivity|]. split; [lia|]. split; [vm_compute; reflexivity|].
  vm_compute. discriminate.
Qed.

(** C2, amended.  When [parseInt] reads the Runtime string as an integer
    [m] with 0 <= m <= 2^53 - 1, the result is the hours and the remaining
    minutes if there is at least one hour, and the minutes alone
    otherwise; every integer in that range is the value of its own decimal
    string; the three sample renderings. *)
Theorem getRuntime_hours_minutes :
  (forall runtime m,
     JS.parseInt runtime = JS.Num m -> 0 <= m <= 9007199254740991 ->
     getRuntime runtime
     = if 0 <? m / 60
       then (JS.toString (JS.Num (m / 60)) ++ "h "
             ++ JS.toString (JS.Num (m mod 60)) ++ "m")%string
       else (JS.toString (JS.Num (m mod 60)) ++ "m")%string)
  /\ (forall m, 0 <= m <= 9007199254740991 ->
                JS.parseInt (JS.toString (JS.Num m)) = JS.Num m)
  /\ getRuntime "90" = "1h 30m"%string
  /\ getRuntime "45" = "45m"%string
  /\ getRuntime "120" = "2h 0m"%string.
Proof.
  split; [|split; [|repeat split]].
  - intros runtime m Hparse Hm. unfold getRuntime. rewrite Hparse.
    unfold JS.floor_div, JS.rem, JS.gt.
    change (60 =? 0) with false. cbv iota.
    now rewrite Z.rem_mod_nonneg by lia.
  - intros m Hm. apply ParseFacts.parseInt_toString. lia.
Qed.

Lemma getRuntime_hours_minutes_witness :
  JS.parseInt "135" = JS.Num 135 /\ 0 <= 135 <= 9007199254740991
  /\ getRuntime "135" = "2h 15m"%string.
Proof.
  split; [reflexivity|]. split; [lia|].
  rewrite (proj1 getRuntime_hours_minutes "135"%string 135 eq_refl ltac:(lia)).
  reflexivity.
Defined.

(** ** handleFilterChange *)

(** C10.  Writing one field of the filter configuration sets that field to
    the given value and keeps the other; the remaining state cells are not
    touched. *)
Theorem handleFilterChange_frame (value : string) (s : State) :
  (searchTerm (filters (handleFilterChange key_searchTerm value s)) = value
   /\ sortBy (filters (handleFilterChange key_searchTerm value s))
      = sortBy (filters s))
  /\ (sortBy (filters (handleFilterChange key_sortBy value s)) = value
      /\ searchTerm (filters (handleFilterChange key_sortBy value s))
         = searchTerm (filters s))
  /\ (forall key,
        movies (handleFilterChange key value s) = movies s
        /\ isLoading (handleFilterChange key value s) = isLoading s
        /\ error (handleFilterChange key value s) = error s).
Proof. repeat split. Qed.

(** ** The raw list is not written *)

(** [sort] on its own does rewrite its receiver. *)
Example Array_sort_in_place :
  JS.Array_sort
    (compareFn codeUnitCompare {| searchTerm := ""; sortBy := "Title" |})
    1%positive ({[ 1%positive := [zeta; alpha] ]} : gmap JS.ref (list Movie))
  = Some ({[ 1%positive := [alpha; zeta] ]}, 1%positive).
Proof.
  unfold JS.Array_sort. rewrite lookup_singleton_eq.
  now rewrite insert_singleton_eq.
Qed.

Section HeapFacts.
Variable localeCompare : string -> string -> Z.

Lemma fresh_unused (h : gmap JS.ref (list Movie)) :
  h !! fresh (dom h) = None.
Proof. apply not_elem_of_dom, is_fresh. Qed.

(** One evaluation: the view list lands in a new array, every array that
    existed before is as it was. *)
Lemma filteredMovies_heap_run (h : gmap JS.ref (list Movie))
  (moviesRef : JS.ref) (l : list Movie) (f : FilterOptions) :
  h !! moviesRef = Some l ->
  exists h' viewRef,
    filteredMovies_heap localeCompare moviesRef f h = Some (h', viewRef)
    /\ h !! viewRef = None
    /\ h' !! viewRef = Some (filteredMovies localeCompare l f)
    /\ forall r, r <> viewRef -> h' !! r = h !! r.
Proof.
  intros Hl. unfold filteredMovies_heap, JS.Array_filter, JS.alloc.
  rewrite Hl. unfold JS.Array_sort. rewrite lookup_insert_eq.
  eexists _, _. split; [reflexivity|]. split; [apply fresh_unused|].
  split.
  - now rewrite lookup_insert_eq.
  - intros r Hr. now rewrite !lookup_insert_ne by congruence.
Qed.

(** C9.  Computing the view list leaves the raw array as it was, elements
    and order; the view list is a different array; computing again from
    the same raw array and filter configuration gives the same view
    list. *)
Theorem filteredMovies_leaves_raw_list (h : gmap JS.ref (list Movie))
  (moviesRef : JS.ref) (l : list Movie) (f : FilterOptions) :
  h !! moviesRef = Some l ->
  exists h' viewRef,
    filteredMovies_heap localeCompare moviesRef f h = Some (h', viewRef)
    /\ h' !! moviesRef = Some l
    /\ viewRef <> moviesRef
    /\ h' !! viewRef = Some (filteredMovies localeCompare l f)
    /\ exists h'' viewRef',
         filteredMovies_heap localeCompare moviesRef f h' = Some (h'', viewRef')
         /\ h'' !! moviesRef = Some l
         /\ h'' !! viewRef' = Some (filteredMovies localeCompare l f).
Proof.
  intros Hl.
  destruct (filteredMovies_heap_run h moviesRef l f Hl)
    as (h' & viewRef & Hrun & Hnew & Hview & Hframe).
  assert (Hne : viewRef <> moviesRef) by congruence.
  assert (Hl' : h' !! moviesRef = Some l).
  { rewrite Hframe by congruence. exact Hl. }
  exists h', viewRef. repeat split; try assumption.
  destruct (filteredMovies_heap_run h' moviesRef l f Hl')
    as (h'' & viewRef' & Hrun' & Hnew' & Hview' & Hframe').
  exists h'', viewRef'. repeat split; try assumption.
  rewrite Hframe' by congruence. exact Hl'.
Qed.

End HeapFacts.

Lemma filteredMovies_leaves_raw_list_witness :
  ({[ 1%positive := [zeta; alpha] ]} : gmap JS.ref (list Movie)) !! 1%positive
  = Some [zeta; alpha]
  /\ exists h' viewRef,
       filteredMovies_heap codeUnitCompare 1%positive
         {| searchTerm := ""; sortBy := "Title" |}
         {[ 1%positive := [zeta; alpha] ]} = Some (h', viewRef)
       /\ h' !! 1%positive = Some [zeta; alpha]
       /\ h' !! viewRef = Some [alpha; zeta].
Proof.
  split; [apply lookup_singleton_eq|].
  destruct (filteredMovies_leaves_raw_list codeUnitCompare
              {[ 1%positive := [zeta; alpha] ]} 1%positive [zeta; alpha]
              {| searchTerm := ""; sortBy := "Title" |}
              ltac:(apply lookup_singleton_eq))
    as (h' & viewRef & Hrun & Hraw & _ & Hview & _).
  exists h', viewRef. repeat split; assumption.
Defined.

(** ** The fetch lifecycle *)

Example afterFetch_success :
  afterFetch (Normal {| ok := true; json := Normal [zeta; alpha] |})
  = {| movies := [zeta; alpha]; isLoading := false; error := None;
       filters := {| searchTerm := ""; sortBy := "Title" |} |}.
Proof. reflexivity. Qed.

Example afterFetch_network_error :
  lifecycle (afterFetch (Abrupt (ErrorObject "Failed to fetch")))
  = Error "Failed to fetch".
Proof. reflexivity. Qed.

Example afterFetch_thrown_string :
  lifecycle (afterFetch (Abrupt OtherValue)) = Error "An error occurred".
Proof. reflexivity. Qed.

(** Between the write of [catch] and the write of [finally] the loading
    flag is still set while the error cell is already filled: the cells do
    not exclude one another, the order of the tests in the component body
    does. *)
Example commits_on_failure :
  commits (fetchMovies (Abrupt (ErrorObject "offline")) initialState)
  = [ initialState;
      {| movies := []; isLoading := true; error := Some "offline"%string;
         filters := filters initialState |};
      {| movies := []; isLoading := false; error := Some "offline"%string;
         filters := filters initialState |} ].
Proof. reflexivity. Qed.

(** C5.  A response that is not ok ends in Error with exactly the message
    "Failed to fetch movies", whatever its body and whatever the cells
    held before; the movie list is not written. *)
Theorem not_ok_response_is_Error (s : State) (body : Completion (list Movie)) :
  lifecycle (finalState (fetchMovies (Normal {| ok := false; json := body |}) s))
  = Error "Failed to fetch movies"
  /\ error (finalState (fetchMovies (Normal {| ok := false; json := body |}) s))
     = Some "Failed to fetch movies"%string
  /\ movies (finalState (fetchMovies (Normal {| ok := false; json := body |}) s))
     = movies s.
Proof. repeat split. Qed.

(** The message stored by any other failure, and the screen when that
    message is not empty. *)
Lemma other_failure_message (s : State) (outcome : Completion Response)
  (reason : Thrown) :
  failsWith reason outcome ->
  error (finalState (fetchMovies outcome s)) = Some (messageOf reason)
  /\ isLoading (finalState (fetchMovies outcome s)) = false
  /\ (messageOf reason <> ""%string ->
      lifecycle (finalState (fetchMovies outcome s))
      = Error (messageOf reason)).
Proof.
  intros [|]; (split; [reflexivity|]); (split; [reflexivity|]);
    intros Hmsg; unfold lifecycle; simpl;
    destruct reason as [[|c m]|]; simpl in *; congruence.
Qed.

(** C6, at the input where it fails.  A rejection with an [Error] whose
    message is empty stores the empty string, which the component body
    tests as falsy: the lifecycle is Ready with no movies, not Error, for
    a rejected request and for a body that does not parse alike. *)
Theorem empty_message_failure_is_Ready :
  error (afterFetch (Abrupt (ErrorObject ""))) = Some ""%string
  /\ lifecycle (afterFetch (Abrupt (ErrorObject ""))) = Ready []
  /\ lifecycle
       (afterFetch (Normal {| ok := true; json := Abrupt (ErrorObject "") |}))
     = Ready []
  /\ forall message,
       lifecycle (afterFetch (Abrupt (ErrorObject ""))) <> Error message.
Proof. repeat split. intros message. discriminate. Qed.

(** C8.  Whatever the outcome, the attempt completes, the loading flag is
    false afterwards, and the lifecycle is not Loading. *)
Theorem fetchMovies_clears_loading (outcome : Completion Response) (s : State) :
  fst (fst (fetchMovies outcome s)) = Normal tt
  /\ isLoading (finalState (fetchMovies outcome s)) = false
  /\ lifecycle (finalState (fetchMovies outcome s)) <> Loading.
Proof.
  assert (H : fst (fst (fetchMovies outcome s)) = Normal tt
              /\ isLoading (finalState (fetchMovies outcome s)) = false).
  { destruct outcome as [[[] [data|v]]|v]; split; reflexivity. }
  destruct H as [Hc Hl]. repeat split; try assumption.
  unfold lifecycle. rewrite Hl.
  destruct (error (finalState (fetchMovies outcome s))) as [[|c m]|];
    discriminate.
Qed.

(** No reachable state holds both an error and movies: on failure the
    whole view is the error, never partial data. *)
Lemma reachable_error_no_movies (s : State) :
  reachable s -> error s <> None -> movies s = [].
Proof.
  induction 1 as [|outcome s Hin|key value s Hs IH]; intros He.
  - reflexivity.
  - destruct outcome as [[[] [data|v]]|v]; simpl in Hin;
      repeat (destruct Hin as [<-|Hin]; [try reflexivity; now elim He|]);
      contradiction.
  - destruct key; apply IH; exact He.
Qed.

(** C7 as stated fails on the cells: in the reachable state between the
    write of the catch clause and the write of finally the loading flag and
    an error are set together, so two of the three conditions hold at
    once. *)
Lemma loading_and_error_together :
  reachable caughtOffline
  /\ loadingSet caughtOffline
  /\ errorSet caughtOffline "offline".
Proof.
  split; [|split; [reflexivity | split; [reflexivity | discriminate]]].
  apply (reachable_commit (Abrupt (ErrorObject "offline"))).
  simpl. auto.
Qed.

(** The loading flag is clear only once the attempt has completed: in the
    last write of the effect and in what user input makes of it. *)
Lemma reachable_settled (s : State) :
  reachable s -> isLoading s = false ->
  exists outcome inputs, s = userInputs inputs (afterFetch outcome).
Proof.
  induction 1 as [|outcome s Hin|key value s Hs IH]; intros Hl.
  - discriminate.
  - exists outcome, [].
    destruct outcome as [[[] [data|v]]|v]; simpl in Hin;
      repeat (destruct Hin as [<-|Hin]; [try discriminate; reflexivity|]);
      contradiction.
  - destruct (IH Hl) as (outcome & inputs & ->).
    exists outcome, (inputs ++ [(key, value)]).
    unfold userInputs. now rewrite List.fold_left_app.
Qed.

(** C7, amended.  In every reachable state with the loading flag set the
    component body returns Loading.  In every reachable state with the
    loading flag clear the attempt has completed, and, unless the stored
    message is the empty string, exactly one of Error and Ready holds:
    either a message is stored, no movies are, and the body returns Error
    with that message, or no error is stored and the body returns Ready
    with the stored movies. *)
Theorem lifecycle_exactly_one_when_settled (s : State) :
  reachable s ->
  (loadingSet s -> lifecycle s = Loading)
  /\ (isLoading s = false ->
      (exists outcome inputs, s = userInputs inputs (afterFetch outcome))
      /\ (error s <> Some ""%string ->
          ((exists message,
              errorSet s message /\ movies s = []
              /\ lifecycle s = Error message)
           /\ error s <> None)
          \/ (error s = None
              /\ (forall message, ~ errorSet s message)
              /\ lifecycle s = Ready (movies s)))).
Proof.
  intros Hr. split.
  - unfold loadingSet, lifecycle. now intros ->.
  - intros Hl. split; [now apply reachable_settled|].
    intros Hne. unfold lifecycle, errorSet. rewrite Hl.
    destruct (error s) as [[|c m]|] eqn:He.
    + congruence.
    + left. split; [|discriminate].
      exists (String c m). repeat split; try discriminate.
      apply reachable_error_no_movies; [assumption | congruence].
    + right. repeat split. intros message [H _]. discriminate.
Qed.

Lemma lifecycle_exactly_one_when_settled_witness :
  reachable (afterFetch (Abrupt (ErrorObject "offline")))
  /\ isLoading (afterFetch (Abrupt (ErrorObject "offline"))) = false
  /\ error (afterFetch (Abrupt (ErrorObject "offline"))) <> Some ""%string
  /\ lifecycle (afterFetch (Abrupt (ErrorObject "offline"))) = Error "offline".
Proof.
  assert (Hr : reachable (afterFetch (Abrupt (ErrorObject "offline")))).
  { apply (reachable_commit (Abrupt (ErrorObject "offline"))).
    simpl. auto. }
  assert (Hne : error (afterFetch (Abrupt (ErrorObject "offline")))
                <> Some ""%string) by discriminate.
  split; [exact Hr|]. split; [reflexivity|]. split; [exact Hne|].
  destruct (proj2 (proj2 (lifecycle_exactly_one_when_settled _ Hr) eq_refl)
              Hne)
    as [[(message & [He _] & _ & Hl) _] | (He & _)].
  - rewrite Hl. f_equal. simpl in He. congruence.
  - discriminate He.
Defined.

(** * Further properties *)

(** ** More about the sort *)

Module SortMore.
Import JS.

(** The sort looks only at comparisons between members of its input. *)
Lemma insert_ext_In {A} (c c' : A -> A -> number) (x : A) (l : list A) :
  (forall y, In y l -> SortCompare c x y = SortCompare c' x y) ->
  insert c x l = insert c' x l.
Proof.
  induction l as [|y l IH]; intros H; [reflexivity|].
  cbn [insert]. rewrite (H y) by now left.
  rewrite IH; [reflexivity|]. intros z Hz. apply H. now right.
Qed.

Lemma sort_ext_In {A} (c c' : A -> A -> number) (l : list A) :
  (forall x y, In x l -> In y l -> SortCompare c x y = SortCompare c' x y) ->
  sort c l = sort c' l.
Proof.
  induction l as [|x l IH]; intros H; [reflexivity|].
  cbn [sort]. rewrite IH.
  - apply insert_ext_In. intros y Hy. apply SortFacts.sort_In in Hy.
    apply H; [now left | now right].
  - intros a b Ha Hb. apply H; now right.
Qed.

Lemma filter_Permutation {A} (p : A -> bool) (l l' : list A) :
  Permutation l l' -> Permutation (List.filter p l) (List.filter p l').
Proof.
  induction 1 as [|x l l' _ IH|x y l|l l' l'' _ IH1 _ IH2]; cbn [List.filter].
  - reflexivity.
  - destruct (p x); [now constructor | assumption].
  - destruct (p x), (p y); try reflexivity. apply perm_swap.
  - now transitivity (List.filter p l').
Qed.

Lemma filter_StronglySorted {A} (R : A -> A -> Prop) (p : A -> bool)
  (l : list A) :
  StronglySorted R l -> StronglySorted R (List.filter p l).
Proof.
  induction 1 as [|x l Hl IH Hx]; cbn [List.filter]; [constructor|].
  destruct (p x); [|assumption]. constructor; [assumption|].
  rewrite List.Forall_forall in *. intros y Hy.
  apply List.filter_In in Hy as [Hy _]. now apply Hx.
Qed.

Lemma filter_swap {A} (p q : A -> bool) (l : list A) :
  List.filter p (List.filter q l) = List.filter q (List.filter p l).
Proof.
  induction l as [|x l IH]; [reflexivity|]. cbn [List.filter].
  destruct (p x) eqn:Hp, (q x) eqn:Hq; cbn [List.filter];
    rewrite ?Hp, ?Hq, IH; reflexivity.
Qed.

Section Consistent.
Context {A : Type} (c : A -> A -> number).
Hypothesis Hc : consistent c.

Lemma before_trans (x y z : A) : before c x y -> before c y z -> before c x z.
Proof. apply (consistent_trans _ Hc). Qed.

Lemma sort_StronglySorted (l : list A) : StronglySorted (before c) (sort c l).
Proof.
  apply Sorted_StronglySorted; [exact before_trans|].
  apply SortFacts.sort_Sorted. intros x y Hxy.
  apply (consistent_flip _ Hc) in Hxy. lia.
Qed.

(** Dropping elements before the sort or after it gives the same list. *)
Lemma sort_filter_commute (p : A -> bool) (l : list A) :
  List.filter p (sort c l) = sort c (List.filter p l).
Proof.
  apply (SortFacts.sort_unique c Hc). split; [|split].
  - apply filter_Permutation, SortFacts.sort_Permutation.
  - apply StronglySorted_Sorted, filter_StronglySorted, sort_StronglySorted.
  - intros x. rewrite filter_swap, (SortFacts.sort_stable c Hc).
    apply filter_swap.
Qed.

End Consistent.

End SortMore.

(** ** The comparator of the pipeline *)

Section ComparatorFacts.
Variable localeCompare : string -> string -> Z.

Lemma numericField_Year (f : FilterOptions) :
  sortBy f = "Year"%string -> numericField f = Some Year.
Proof. intros H. unfold numericField. now rewrite H. Qed.

Lemma numericField_Runtime (f : FilterOptions) :
  sortBy f = "Runtime"%string -> numericField f = Some Runtime.
Proof. intros H. unfold numericField. now rewrite H. Qed.

Lemma numericField_other (f : FilterOptions) :
  sortBy f <> "Year"%string -> sortBy f <> "Runtime"%string ->
  numericField f = None.
Proof.
  intros HY HR. unfold numericField.
  apply String.eqb_neq in HY, HR. now rewrite HY, HR.
Qed.

Lemma compareFn_numeric (f : FilterOptions) (key : Movie -> string)
  (a b : Movie) :
  numericField f = Some key ->
  compareFn localeCompare f a b = descendingBy key a b.
Proof.
  unfold numericField, compareFn.
  destruct (sortBy f =? "Year")%string; [intros [= <-]; reflexivity|].
  destruct (sortBy f =? "Runtime")%string; [intros [= <-]; reflexivity|].
  discriminate.
Qed.

Lemma compareFn_Title (f : FilterOptions) (a b : Movie) :
  numericField f = None ->
  compareFn localeCompare f a b = JS.Num (localeCompare (Title a) (Title b)).
Proof.
  unfold numericField, compareFn.
  destruct (sortBy f =? "Year")%string; [discriminate|].
  destruct (sortBy f =? "Runtime")%string; [discriminate|]. reflexivity.
Qed.

Lemma descendingByNumber_sign (key : Movie -> string) (a b : Movie) :
  Z.sgn (JS.SortCompare (descendingByNumber key) a b)
  = Z.sgn (numericKey key b - numericKey key a).
Proof.
  rewrite NumberFacts.SortCompare_sign. apply NumberFacts.sign_sub.
Qed.

Lemma descendingByNumber_consistent (key : Movie -> string) :
  JS.consistent (descendingByNumber key).
Proof.
  split; unfold JS.before.
  - intros x. pose proof (descendingByNumber_sign key x x). lia.
  - intros x y. pose proof (descendingByNumber_sign key x y).
    pose proof (descendingByNumber_sign key y x). lia.
  - intros x y z. pose proof (descendingByNumber_sign key x y).
    pose proof (descendingByNumber_sign key y z).
    pose proof (descendingByNumber_sign key x z). lia.
Qed.

(** Where the field parses, the comparator of the source is the one on
    the numbers in the fields. *)
Lemma descendingBy_number (key : Movie -> string) (a b : Movie) (ka kb : Z) :
  JS.parseInt (key a) = JS.Num ka -> JS.parseInt (key b) = JS.Num kb ->
  descendingBy key a b = descendingByNumber key a b
  /\ Z.sgn (JS.SortCompare (descendingBy key) a b) = Z.sgn (kb - ka).
Proof.
  intros Ha Hb.
  assert (H : descendingBy key a b = descendingByNumber key a b).
  { unfold descendingBy, descendingByNumber, numericKey.
    now rewrite Ha, Hb. }
  split; [exact H|].
  unfold JS.SortCompare. rewrite H.
  change (Z.sgn (JS.SortCompare (descendingByNumber key) a b)
          = Z.sgn (kb - ka)).
  rewrite descendingByNumber_sign. unfold numericKey. now rewrite Ha, Hb.
Qed.

Lemma compareFn_Title_consistent (f : FilterOptions) :
  totalPreorder localeCompare -> numericField f = None ->
  JS.consistent (compareFn localeCompare f).
Proof.
  intros [Hrefl Hflip Htrans] Hf.
  split; unfold JS.before, JS.SortCompare; intros; rewrite ?compareFn_Title in *
    by assumption; eauto.
Qed.

(** On a list it can order, the comparator agrees with a consistent one. *)
Lemma sortable_comparator (f : FilterOptions) (l : list Movie) :
  sortable localeCompare f l ->
  exists c,
    JS.consistent c
    /\ forall x y, In x l -> In y l ->
         JS.SortCompare (compareFn localeCompare f) x y = JS.SortCompare c x y.
Proof.
  unfold sortable. destruct (numericField f) as [key|] eqn:Hf; intros Hs.
  - exists (descendingByNumber key).
    split; [apply descendingByNumber_consistent|].
    intros x y Hx Hy.
    destruct (Hs x Hx) as [kx Hkx], (Hs y Hy) as [ky Hky].
    destruct (descendingBy_number key x y kx ky Hkx Hky) as [H1 _].
    unfold JS.SortCompare.
    now rewrite (compareFn_numeric f key), H1.
  - exists (compareFn localeCompare f).
    split; [now apply compareFn_Title_consistent | reflexivity].
Qed.

Lemma sortable_filter (f : FilterOptions) (p : Movie -> bool) (l : list Movie) :
  sortable localeCompare f l -> sortable localeCompare f (List.filter p l).
Proof.
  unfold sortable. destruct (numericField f); [|trivial].
  intros H movie Hin. apply List.filter_In in Hin as [Hin _]. now apply H.
Qed.

(** With the empty search term the view list is the sorted raw list. *)
Lemma filteredMovies_no_search (l : list Movie) (key : string) :
  filteredMovies localeCompare l {| searchTerm := ""; sortBy := key |}
  = JS.sort (compareFn localeCompare {| searchTerm := ""; sortBy := key |}) l.
Proof.
  unfold filteredMovies. rewrite SortFacts.filter_all; [reflexivity|].
  intros movie _. apply StringFacts.includes_empty.
Qed.

Lemma compareFn_sortBy (f g : FilterOptions) :
  sortBy f = sortBy g ->
  compareFn localeCompare f = compareFn localeCompare g.
Proof. intros H. unfold compareFn. now rewrite H. Qed.

End ComparatorFacts.

(** ** Comparison by code units is a total preorder *)

Lemma string_compare_refl (a : string) : String.compare a a = Eq.
Proof.
  induction a as [|x a IH]; simpl; [reflexivity|].
  unfold Ascii.compare. now rewrite N.compare_refl.
Qed.

Lemma string_compare_trans (a b c : string) :
  String.compare a b <> Gt -> String.compare b c <> Gt ->
  String.compare a c <> Gt.
Proof.
  revert b c. induction a as [|x a IH]; intros [|y b] [|z c]; simpl;
    try congruence.
  unfold Ascii.compare.
  destruct (N.compare_spec (N_of_ascii x) (N_of_ascii y)) as [Hxy|Hxy|Hxy];
    destruct (N.compare_spec (N_of_ascii y) (N_of_ascii z)) as [Hyz|Hyz|Hyz];
    destruct (N.compare_spec (N_of_ascii x) (N_of_ascii z)) as [Hxz|Hxz|Hxz];
    try congruence; try lia.
  apply IH.
Qed.

Lemma codeUnitCompare_totalPreorder : totalPreorder codeUnitCompare.
Proof.
  split.
  - intros a. unfold codeUnitCompare. now rewrite string_compare_refl.
  - intros a b. unfold codeUnitCompare. rewrite (String.compare_antisym a b).
    destruct (String.compare b a); simpl; lia.
  - intros a b c. unfold codeUnitCompare.
    pose proof (string_compare_trans a b c).
    destruct (String.compare a b), (String.compare b c),
      (String.compare a c); try lia; intros _ _; exfalso; apply H; congruence.
Qed.

(** ** Order of the view list *)

Lemma StronglySorted_impl_In {A} (R R' : A -> A -> Prop) (l : list A) :
  (forall a b, In a l -> In b l -> R a b -> R' a b) ->
  StronglySorted R l -> StronglySorted R' l.
Proof.
  intros HR Hs. induction Hs as [|x l Hl IH Hx]; constructor.
  - apply IH. intros a b Ha Hb. apply HR; now right.
  - rewrite List.Forall_forall in *. intros y Hy.
    apply HR; [now left | now right | now apply Hx].
Qed.

Lemma StronglySorted_head {A} (R : A -> A -> Prop) (x y : A) (l : list A) :
  StronglySorted R (x :: l) -> In y l -> R x y.
Proof.
  intros Hs Hy. apply StronglySorted_inv in Hs as [_ Hall].
  rewrite List.Forall_forall in Hall. now apply Hall.
Qed.

Section OrderFacts.
Variable localeCompare : string -> string -> Z.

(** The view list is in the comparator's order throughout. *)
Lemma filteredMovies_StronglySorted (l : list Movie) (f : FilterOptions) :
  sortable localeCompare f l ->
  StronglySorted (JS.before (compareFn localeCompare f))
    (filteredMovies localeCompare l f).
Proof.
  intros Hs. apply (sortable_filter _ f (matchesSearch f)) in Hs.
  destruct (sortable_comparator _ f _ Hs) as (c & Hc & Hagree).
  unfold filteredMovies.
  rewrite (SortMore.sort_ext_In _ c) by exact Hagree.
  apply StronglySorted_impl_In with (R := JS.before c).
  - intros a b Ha Hb. apply SortFacts.sort_In in Ha, Hb.
    unfold JS.before. now rewrite Hagree.
  - now apply SortMore.sort_StronglySorted.
Qed.

Lemma numeric_sort_descending (l : list Movie) (f : FilterOptions)
  (key : Movie -> string) :
  numericField f = Some key -> keysParse key l ->
  StronglySorted (keyAtLeast key) (filteredMovies localeCompare l f).
Proof.
  intros Hf Hl.
  apply StronglySorted_impl_In
    with (R := JS.before (compareFn localeCompare f)).
  - intros a b Ha Hb Hab.
    apply filteredMovies_In in Ha as [Ha _], Hb as [Hb _].
    destruct (Hl a Ha) as [ka Hka], (Hl b Hb) as [kb Hkb].
    exists ka, kb. repeat split; try assumption.
    unfold JS.before, JS.SortCompare in Hab.
    rewrite (compareFn_numeric _ f key) in Hab by assumption.
    destruct (descendingBy_number key a b ka kb Hka Hkb) as [_ H2].
    unfold JS.SortCompare in H2. lia.
  - apply filteredMovies_StronglySorted. unfold sortable. now rewrite Hf.
Qed.

(** X1.  With sortBy = Runtime and every Runtime of the raw list parsing
    to an integer, the view list is in descending Runtime order throughout:
    each movie's Runtime is at least that of every movie after it, so the
    first is the longest. *)
Theorem sort_by_Runtime_longest_first (l : list Movie) (f : FilterOptions) :
  sortBy f = "Runtime"%string ->
  keysParse Runtime l ->
  StronglySorted (keyAtLeast Runtime) (filteredMovies localeCompare l f)
  /\ forall first rest,
       filteredMovies localeCompare l f = first :: rest ->
       forall movie, In movie rest -> keyAtLeast Runtime first movie.
Proof.
  intros Hf Hl.
  pose proof (numeric_sort_descending l f Runtime
                (numericField_Runtime f Hf) Hl) as Hs.
  split; [exact Hs|]. intros first rest Hview movie Hin.
  rewrite Hview in Hs. now apply (StronglySorted_head _ first movie rest).
Qed.

(** X2.  With sortBy = Year and every Year of the raw list parsing to an
    integer, the whole view list is in descending Year order: each movie's
    Year is at least that of every movie after it, not only the first
    one's. *)
Theorem sort_by_Year_descending_throughout (l : list Movie) (f : FilterOptions) :
  sortBy f = "Year"%string ->
  keysParse Year l ->
  StronglySorted (keyAtLeast Year) (filteredMovies localeCompare l f).
Proof.
  intros Hf Hl. apply numeric_sort_descending; [|assumption].
  now apply numericField_Year.
Qed.

(** X3.  With any sortBy other than Year and Runtime (Title, or a string
    that is none of the three) and a collation that is a total preorder,
    the view list is in ascending Title order throughout: each Title
    compares at most equal to every Title after it. *)
Theorem sort_by_Title_ascending_throughout (l : list Movie) (f : FilterOptions) :
  sortBy f <> "Year"%string -> sortBy f <> "Runtime"%string ->
  totalPreorder localeCompare ->
  StronglySorted (fun a b => localeCompare (Title a) (Title b) <= 0)
    (filteredMovies localeCompare l f).
Proof.
  intros HY HR Hlc.
  pose proof (numericField_other f HY HR) as Hf.
  apply StronglySorted_impl_In
    with (R := JS.before (compareFn localeCompare f)).
  - intros a b _ _. unfold JS.before, JS.SortCompare.
    now rewrite compareFn_Title.
  - apply filteredMovies_StronglySorted. unfold sortable. now rewrite Hf.
Qed.

End OrderFacts.

Lemma sample_Runtimes_parse : keysParse Runtime [zeta; alpha; matrix; sequel].
Proof. intros movie [<-|[<-|[<-|[<-|[]]]]]; eexists; reflexivity. Qed.

Lemma sample_Years_parse : keysParse Year [zeta; alpha; matrix; sequel].
Proof. intros movie [<-|[<-|[<-|[<-|[]]]]]; eexists; reflexivity. Qed.

Lemma sort_by_Runtime_longest_first_witness :
  sortBy {| searchTerm := ""; sortBy := "Runtime" |} = "Runtime"%string
  /\ keysParse Runtime [zeta; alpha; matrix; sequel]
  /\ filteredMovies codeUnitCompare [zeta; alpha; matrix; sequel]
       {| searchTerm := ""; sortBy := "Runtime" |}
     = [matrix; alpha; sequel; zeta]
  /\ keyAtLeast Runtime matrix zeta.
Proof.
  split; [reflexivity|]. split; [exact sample_Runtimes_parse|].
  split; [reflexivity|].
  apply (proj2 (sort_by_Runtime_longest_first codeUnitCompare
                  [zeta; alpha; matrix; sequel]
                  {| searchTerm := ""; sortBy := "Runtime" |}
                  eq_refl sample_Runtimes_parse)
           matrix [alpha; sequel; zeta] eq_refl zeta).
  simpl. auto.
Defined.

Lemma sort_by_Year_descending_throughout_witness :
  sortBy {| searchTerm := ""; sortBy := "Year" |} = "Year"%string
  /\ keysParse Year [zeta; alpha; matrix; sequel]
  /\ StronglySorted (keyAtLeast Year) [alpha; sequel; zeta; matrix].
Proof.
  split; [reflexivity|]. split; [exact sample_Years_parse|].
  exact (sort_by_Year_descending_throughout codeUnitCompare
           [zeta; alpha; matrix; sequel]
           {| searchTerm := ""; sortBy := "Year" |}
           eq_refl sample_Years_parse).
Defined.

Lemma sort_by_Title_ascending_throughout_witness :
  sortBy {| searchTerm := ""; sortBy := "Rating" |} <> "Year"%string
  /\ sortBy {| searchTerm := ""; sortBy := "Rating" |} <> "Runtime"%string
  /\ totalPreorder codeUnitCompare
  /\ StronglySorted (fun a b => codeUnitCompare (Title a) (Title b) <= 0)
       [alpha; sequel; matrix; zeta].
Proof.
  split; [discriminate|]. split; [discriminate|].
  split; [exact codeUnitCompare_totalPreorder|].
  exact (sort_by_Title_ascending_throughout codeUnitCompare
           [zeta; alpha; matrix; sequel]
           {| searchTerm := ""; sortBy := "Rating" |}
           ltac:(discriminate) ltac:(discriminate)
           codeUnitCompare_totalPreorder).
Defined.

(** ** Searching and sorting together *)

Section SearchAndSort.
Variable localeCompare : string -> string -> Z.

(** X4.  When the sort can order the raw list, the view list for a search
    term is the view list for the empty term with the movies that do not
    match left out: typing in the search box removes cards and never
    reorders the ones that stay. *)
Theorem search_keeps_order (l : list Movie) (f : FilterOptions) :
  sortable localeCompare f l ->
  filteredMovies localeCompare l f
  = List.filter (matchesSearch f)
      (filteredMovies localeCompare l
         {| searchTerm := ""; sortBy := sortBy f |}).
Proof.
  intros Hs. rewrite filteredMovies_no_search.
  rewrite (compareFn_sortBy _ {| searchTerm := ""; sortBy := sortBy f |} f)
    by reflexivity.
  destruct (sortable_comparator _ f l Hs) as (c & Hc & Hagree).
  unfold filteredMovies.
  rewrite (SortMore.sort_ext_In _ c l) by exact Hagree.
  rewrite (SortMore.sort_filter_commute c Hc).
  apply SortMore.sort_ext_In. intros x y Hx Hy.
  apply List.filter_In in Hx as [Hx _], Hy as [Hy _]. now apply Hagree.
Qed.

(** X5.  When the sort can order the raw list, the movies it ranks equal
    to a given movie of the raw list (same Year, same Runtime, or Titles
    the collation does not tell apart) stand in the view list in the order
    they have in the raw list. *)
Theorem ties_keep_raw_order (l : list Movie) (f : FilterOptions) (x : Movie) :
  sortable localeCompare f l -> In x l ->
  List.filter (JS.tied (compareFn localeCompare f) x)
    (filteredMovies localeCompare l f)
  = List.filter (JS.tied (compareFn localeCompare f) x)
      (List.filter (matchesSearch f) l).
Proof.
  intros Hs Hx.
  destruct (sortable_comparator _ f l Hs) as (c & Hc & Hagree).
  assert (Htied : forall l',
             (forall y, In y l' -> In y l) ->
             List.filter (JS.tied (compareFn localeCompare f) x) l'
             = List.filter (JS.tied c x) l').
  { intros l' Hsub. apply List.filter_ext_in. intros y Hy.
    unfold JS.tied. rewrite Hagree; auto. }
  assert (Hsub : forall y, In y (List.filter (matchesSearch f) l) -> In y l).
  { intros y Hy. now apply List.filter_In in Hy. }
  rewrite (Htied (List.filter (matchesSearch f) l) Hsub).
  rewrite Htied.
  - unfold filteredMovies.
    rewrite (SortMore.sort_ext_In _ c).
    + apply (SortFacts.sort_stable c Hc).
    + intros a b Ha Hb. apply Hagree; now apply Hsub.
  - intros y Hy. now apply filteredMovies_In in Hy.
Qed.

(** X6.  Changing the sort key changes at most the order of the view
    list: for the same search term the view lists of two sort keys hold
    the same movies, each as often. *)
Theorem sort_key_keeps_movies (l : list Movie) (f g : FilterOptions) :
  searchTerm f = searchTerm g ->
  Permutation (filteredMovies localeCompare l f)
              (filteredMovies localeCompare l g).
Proof.
  intros Hterm. unfold filteredMovies.
  rewrite !SortFacts.sort_Permutation.
  unfold matchesSearch. now rewrite Hterm.
Qed.

End SearchAndSort.

Lemma sample_sortable_Year term :
  sortable codeUnitCompare {| searchTerm := term; sortBy := "Year" |}
    [zeta; alpha; matrix; sequel].
Proof. exact sample_Years_parse. Qed.

Lemma search_keeps_order_witness :
  sortable codeUnitCompare {| searchTerm := "a"; sortBy := "Year" |}
    [zeta; alpha; matrix; sequel]
  /\ filteredMovies codeUnitCompare [zeta; alpha; matrix; sequel]
       {| searchTerm := "a"; sortBy := "Year" |}
     = List.filter (matchesSearch {| searchTerm := "a"; sortBy := "Year" |})
         [alpha; sequel; zeta; matrix].
Proof.
  split; [exact (sample_sortable_Year "a")|].
  exact (search_keeps_order codeUnitCompare [zeta; alpha; matrix; sequel]
           {| searchTerm := "a"; sortBy := "Year" |}
           (sample_sortable_Year "a")).
Defined.

Lemma ties_keep_raw_order_witness :
  sortable codeUnitCompare {| searchTerm := ""; sortBy := "Year" |}
    [zeta; alpha; matrix; sequel]
  /\ In zeta [zeta; alpha; matrix; sequel]
  /\ List.filter
       (JS.tied (compareFn codeUnitCompare
                   {| searchTerm := ""; sortBy := "Year" |}) zeta)
       (filteredMovies codeUnitCompare [zeta; alpha; matrix; sequel]
          {| searchTerm := ""; sortBy := "Year" |})
     = [zeta; matrix].
Proof.
  split; [exact (sample_sortable_Year "")|]. split; [simpl; auto|].
  rewrite (ties_keep_raw_order codeUnitCompare [zeta; alpha; matrix; sequel]
             {| searchTerm := ""; sortBy := "Year" |} zeta
             (sample_sortable_Year "") ltac:(simpl; auto)).
  reflexivity.
Defined.

Lemma sort_key_keeps_movies_witness :
  searchTerm {| searchTerm := "a"; sortBy := "Year" |}
  = searchTerm {| searchTerm := "a"; sortBy := "Title" |}
  /\ Permutation
       (filteredMovies codeUnitCompare [zeta; alpha; matrix; sequel]
          {| searchTerm := "a"; sortBy := "Year" |})
       (filteredMovies codeUnitCompare [zeta; alpha; matrix; sequel]
          {| searchTerm := "a"; sortBy := "Title" |}).
Proof.
  split; [reflexivity|].
  exact (sort_key_keeps_movies codeUnitCompare [zeta; alpha; matrix; sequel]
           {| searchTerm := "a"; sortBy := "Year" |}
           {| searchTerm := "a"; sortBy := "Title" |} eq_refl).
Defined.

(** ** The search term *)

Module SearchFacts.
Import JS.
Local Open Scope string_scope.

Lemma append_assoc (a b c : string) : (a ++ b) ++ c = a ++ b ++ c.
Proof.
  induction a as [|x a IH]; [reflexivity|].
  rewrite !StringFacts.append_String. now rewrite IH.
Qed.

Lemma lowerChar_idempotent (c : ascii) : lowerChar (lowerChar c) = lowerChar c.
Proof. destruct c as [[] [] [] [] [] [] [] []]; reflexivity. Qed.

Lemma toLowerCase_idempotent (s : string) :
  toLowerCase (toLowerCase s) = toLowerCase s.
Proof.
  induction s as [|c s IH]; [reflexivity|].
  cbn [toLowerCase]. now rewrite lowerChar_idempotent, IH.
Qed.

(** A string that contains [t] contains what [t] contains. *)
Lemma includes_trans (s t u : string) :
  includes s t = true -> includes t u = true -> includes s u = true.
Proof.
  rewrite !StringFacts.includes_substring.
  intros (p & q & ->) (p' & q' & ->).
  exists (p ++ p'), (q' ++ q). now rewrite !append_assoc.
Qed.

End SearchFacts.

Section SearchTerm.
Variable localeCompare : string -> string -> Z.

(** X7.  A search term that contains another, both taken in lower case,
    finds no more: when the lower-case form of the term of [g] contains
    the lower-case form of the term of [f], every movie in the view list
    of [g] is in the view list of [f], whatever the two sort keys. *)
Theorem longer_term_narrows (l : list Movie) (f g : FilterOptions)
  (pre post : string) :
  JS.toLowerCase (searchTerm g)
  = (pre ++ JS.toLowerCase (searchTerm f) ++ post)%string ->
  forall movie,
    In movie (filteredMovies localeCompare l g) ->
    In movie (filteredMovies localeCompare l f).
Proof.
  intros Hterm movie. rewrite !filteredMovies_In. intros [Hin Hm].
  split; [assumption|]. unfold matchesSearch in *.
  apply (SearchFacts.includes_trans _ _ _ Hm).
  rewrite Hterm. apply StringFacts.includes_substring. eauto.
Qed.

(** X8.  The search ignores letter case in the term: lower-casing the
    term beforehand gives the same view list, and so do any two terms with
    the same lower-case form. *)
Theorem search_ignores_case (l : list Movie) :
  (forall term key,
     filteredMovies localeCompare l
       {| searchTerm := JS.toLowerCase term; sortBy := key |}
     = filteredMovies localeCompare l {| searchTerm := term; sortBy := key |})
  /\ (forall term term' key,
        JS.toLowerCase term = JS.toLowerCase term' ->
        filteredMovies localeCompare l {| searchTerm := term; sortBy := key |}
        = filteredMovies localeCompare l
            {| searchTerm := term'; sortBy := key |}).
Proof.
  assert (H : forall term term' key,
             JS.toLowerCase term = JS.toLowerCase term' ->
             filteredMovies localeCompare l
               {| searchTerm := term; sortBy := key |}
             = filteredMovies localeCompare l
                 {| searchTerm := term'; sortBy := key |}).
  { intros term term' key Hlow. unfold filteredMovies.
    rewrite (compareFn_sortBy _ {| searchTerm := term; sortBy := key |}
               {| searchTerm := term'; sortBy := key |}) by reflexivity.
    f_equal. apply List.filter_ext. intros movie. unfold matchesSearch.
    simpl. now rewrite Hlow. }
  split; [|exact H].
  intros term key. apply H. apply SearchFacts.toLowerCase_idempotent.
Qed.

End SearchTerm.

Lemma longer_term_narrows_witness :
  JS.toLowerCase (searchTerm {| searchTerm := "the MAT"; sortBy := "Year" |})
  = ("the "
     ++ JS.toLowerCase (searchTerm {| searchTerm := "MAT"; sortBy := "Title" |})
     ++ "")%string
  /\ In matrix (filteredMovies codeUnitCompare [zeta; alpha; matrix; sequel]
                  {| searchTerm := "the MAT"; sortBy := "Year" |})
  /\ In matrix (filteredMovies codeUnitCompare [zeta; alpha; matrix; sequel]
                  {| searchTerm := "MAT"; sortBy := "Title" |}).
Proof.
  split; [reflexivity|].
  assert (Hin : In matrix
                  (filteredMovies codeUnitCompare [zeta; alpha; matrix; sequel]
                     {| searchTerm := "the MAT"; sortBy := "Year" |})).
  { simpl. auto. }
  split; [exact Hin|].
  exact (longer_term_narrows codeUnitCompare [zeta; alpha; matrix; sequel]
           {| searchTerm := "MAT"; sortBy := "Title" |}
           {| searchTerm := "the MAT"; sortBy := "Year" |}
           "the "%string ""%string eq_refl matrix Hin).
Defined.

Lemma search_ignores_case_witness :
  JS.toLowerCase "MaTrIx" = JS.toLowerCase "matrix"
  /\ filteredMovies codeUnitCompare [zeta; alpha; matrix; sequel]
       {| searchTerm := "MaTrIx"; sortBy := "Title" |}
     = filteredMovies codeUnitCompare [zeta; alpha; matrix; sequel]
         {| searchTerm := "matrix"; sortBy := "Title" |}.
Proof.
  split; [reflexivity|].
  exact (proj2 (search_ignores_case codeUnitCompare
                  [zeta; alpha; matrix; sequel])
           "MaTrIx"%string "matrix"%string "Title"%string eq_refl).
Defined.

(** ** The movie grid *)

Lemma map_filter_NoDup {A B} (g : A -> B) (p : A -> bool) (l : list A) :
  List.NoDup (List.map g l) -> List.NoDup (List.map g (List.filter p l)).
Proof.
  induction l as [|x l IH]; cbn [List.map List.filter]; intros H;
    [constructor|].
  apply List.NoDup_cons_iff in H as [Hx Hl].
  destruct (p x); [|now apply IH]. cbn [List.map]. constructor; [|now apply IH].
  intros Hin. apply Hx. apply List.in_map_iff in Hin as (y & Hy & Hin).
  apply List.in_map_iff. exists y. split; [assumption|].
  now apply List.filter_In in Hin.
Qed.

Section GridFacts.
Variable localeCompare : string -> string -> Z.

Lemma render_MovieGrid (s : State) (cards : list Card) (noResults : bool) :
  render localeCompare s = MovieGrid cards noResults ->
  cards = List.map card (filteredMovies localeCompare (movies s) (filters s))
  /\ noResults
     = Nat.eqb (List.length
                  (filteredMovies localeCompare (movies s) (filters s))) 0.
Proof.
  unfold render. destruct (isLoading s); [discriminate|].
  destruct (error s) as [[|c m]|]; try discriminate;
    intros [= <- <-]; split; reflexivity.
Qed.

Lemma filteredMovies_length (l : list Movie) (f : FilterOptions) :
  List.length (filteredMovies localeCompare l f)
  = List.length (List.filter (matchesSearch f) l).
Proof. apply Permutation_length, SortFacts.sort_Permutation. Qed.

(** X9.  When the Titles of the raw list are pairwise distinct and the
    grid is shown, the no-results message appears exactly when there is no
    card, which is exactly when no movie of the raw list matches the
    search term; there are as many cards as matching movies, never more
    than the raw list holds; and the keys of the cards are pairwise
    distinct, so that the page shows these cards and no other. *)
Theorem no_results_exactly_when_nothing_matches (s : State)
  (cards : list Card) (noResults : bool) :
  List.NoDup (List.map Title (movies s)) ->
  render localeCompare s = MovieGrid cards noResults ->
  (noResults = true <-> cards = [])
  /\ (noResults = true
      <-> forall movie, In movie (movies s) ->
                        matchesSearch (filters s) movie = false)
  /\ List.length cards
     = List.length (List.filter (matchesSearch (filters s)) (movies s))
  /\ (List.length cards <= List.length (movies s))%nat
  /\ List.NoDup (List.map cardKey cards).
Proof.
  intros Hnd Hr. apply render_MovieGrid in Hr as [-> ->].
  assert (Hkeys : List.NoDup
                    (List.map cardKey
                       (List.map card
                          (filteredMovies localeCompare (movies s)
                             (filters s))))).
  { rewrite List.map_map. cbn [card cardKey].
    apply (Permutation_NoDup
             (l := List.map Title
                     (List.filter (matchesSearch (filters s)) (movies s)))).
    - apply Permutation_map. symmetry. apply SortFacts.sort_Permutation.
    - now apply map_filter_NoDup. }
  rewrite List.length_map, filteredMovies_length.
  assert (Hempty : forall l : list Movie,
             List.filter (matchesSearch (filters s)) l = []
             <-> forall movie, In movie l ->
                               matchesSearch (filters s) movie = false).
  { induction l as [|x l IH]; cbn [List.filter].
    - split; [intros _ movie [] | reflexivity].
    - destruct (matchesSearch (filters s) x) eqn:Hx.
      + split; [discriminate|]. intros H.
        rewrite (H x) in Hx by now left. discriminate.
      + rewrite IH. split.
        * intros H movie [<-|Hin]; [assumption | now apply H].
        * intros H movie Hin. apply H. now right. }
  repeat split.
  - intros H. apply Nat.eqb_eq in H.
    rewrite <- filteredMovies_length in H.
    now destruct (filteredMovies localeCompare (movies s) (filters s)).
  - intros H. apply Nat.eqb_eq. rewrite <- filteredMovies_length.
    now destruct (filteredMovies localeCompare (movies s) (filters s)).
  - intros H. apply Nat.eqb_eq in H. apply Hempty.
    now destruct (List.filter (matchesSearch (filters s)) (movies s)).
  - intros H. apply Hempty in H. now rewrite H.
  - clear Hempty Hnd Hkeys.
    induction (movies s) as [|x l IH]; cbn [List.filter]; [reflexivity|].
    destruct (matchesSearch (filters s) x); simpl; lia.
  - exact Hkeys.
Qed.

(** X10.  When the Titles of the raw list are pairwise distinct, the keys
    of the cards in the grid are pairwise distinct. *)
Theorem card_keys_distinct (s : State) (cards : list Card) (noResults : bool) :
  List.NoDup (List.map Title (movies s)) ->
  render localeCompare s = MovieGrid cards noResults ->
  List.NoDup (List.map cardKey cards).
Proof.
  intros Hnd Hr. apply render_MovieGrid in Hr as [-> _].
  rewrite List.map_map. cbn [card cardKey].
  apply (Permutation_NoDup
           (l := List.map Title
                   (List.filter (matchesSearch (filters s)) (movies s)))).
  - apply Permutation_map. symmetry. apply SortFacts.sort_Permutation.
  - now apply map_filter_NoDup.
Qed.

End GridFacts.

Lemma loadedSample_Titles_distinct :
  List.NoDup (List.map Title (movies loadedSample)).
Proof. simpl. repeat constructor; simpl; intuition discriminate. Qed.

Lemma no_results_exactly_when_nothing_matches_witness :
  List.NoDup (List.map Title (movies loadedSample))
  /\ render codeUnitCompare loadedSample = MovieGrid [] true
  /\ forall movie, In movie (movies loadedSample) ->
                   matchesSearch (filters loadedSample) movie = false.
Proof.
  split; [exact loadedSample_Titles_distinct|]. split; [reflexivity|].
  exact (proj1 (proj1 (proj2
           (no_results_exactly_when_nothing_matches codeUnitCompare
              loadedSample [] true loadedSample_Titles_distinct eq_refl)))
           eq_refl).
Defined.

Lemma card_keys_distinct_witness :
  List.NoDup (List.map Title (movies (handleFilterChange key_searchTerm "a" loadedSample)))
  /\ render codeUnitCompare (handleFilterChange key_searchTerm "a" loadedSample)
     = MovieGrid [card alpha; card sequel; card matrix; card zeta] false
  /\ List.NoDup ["Alpha"; "Alpha Returns"; "The Matrix"; "Zeta"]%string.
Proof.
  assert (Hnd : List.NoDup (List.map Title
                   (movies (handleFilterChange key_searchTerm "a" loadedSample)))).
  { simpl. repeat constructor; simpl; intuition discriminate. }
  split; [exact Hnd|]. split; [reflexivity|].
  exact (card_keys_distinct codeUnitCompare
           (handleFilterChange key_searchTerm "a" loadedSample)
           [card alpha; card sequel; card matrix; card zeta] false
           Hnd eq_refl).
Defined.

(** ** getRuntime on other inputs *)

Module RuntimeFacts.
Import JS.
Local Open Scope string_scope.

Lemma stopsNumeral_decimalPrefix (rest : string) :
  stopsNumeral rest = true -> decimalPrefix rest = Decimal.Nil.
Proof.
  destruct rest as [|c rest]; [reflexivity|].
  destruct c as [[] [] [] [] [] [] [] []]; simpl; try discriminate;
    reflexivity.
Qed.

Lemma decimalPrefix_append (d : Decimal.uint) (rest : string) :
  decimalPrefix rest = Decimal.Nil ->
  decimalPrefix (DecimalString.NilEmpty.string_of_uint d ++ rest) = d.
Proof.
  intros Hrest. induction d; cbn [DecimalString.NilEmpty.string_of_uint];
    rewrite ?StringFacts.append_String, ?StringFacts.append_empty;
    cbn [decimalPrefix]; congruence.
Qed.

Lemma parseMagnitude_zero_then (c : ascii) (s : string) :
  (c =? "x")%char = false -> (c =? "X")%char = false ->
  parseMagnitude (String "0" (String c s))
  = decimalValue (String "0" (String c s)).
Proof.
  destruct c as [[] [] [] [] [] [] [] []]; simpl; intros; try discriminate;
    reflexivity.
Qed.

Lemma parseMagnitude_numeral (d : Decimal.uint) (rest : string) :
  d <> Decimal.Nil -> stopsNumeral rest = true ->
  parseMagnitude (DecimalString.NilEmpty.string_of_uint d ++ rest)
  = roundDouble (Z.of_uint d).
Proof.
  intros Hd Hrest.
  assert (Hval : decimalValue
                   (DecimalString.NilEmpty.string_of_uint d ++ rest)
                 = roundDouble (Z.of_uint d)).
  { unfold decimalValue.
    rewrite decimalPrefix_append by now apply stopsNumeral_decimalPrefix.
    destruct d; congruence. }
  rewrite <- Hval.
  destruct d as [|d|d|d|d|d|d|d|d|d|d]; [congruence | | reflexivity ..].
  cbn [DecimalString.NilEmpty.string_of_uint].
  rewrite StringFacts.append_String.
  destruct d; cbn [DecimalString.NilEmpty.string_of_uint];
    rewrite ?StringFacts.append_String, ?StringFacts.append_empty;
    try reflexivity.
  destruct rest as [|c rest]; [reflexivity|].
  apply parseMagnitude_zero_then; simpl in Hrest;
    destruct (c =? "x")%char, (c =? "X")%char; try reflexivity;
    rewrite ?andb_false_r in Hrest; discriminate.
Qed.

Lemma parseInt_numeral (d : Decimal.uint) (rest : string) :
  d <> Decimal.Nil -> stopsNumeral rest = true ->
  parseInt (DecimalString.NilEmpty.string_of_uint d ++ rest)
  = roundDouble (Z.of_uint d).
Proof.
  intros Hd Hrest. rewrite <- (parseMagnitude_numeral d rest Hd Hrest).
  unfold parseInt.
  destruct d; [congruence | cbn [DecimalString.NilEmpty.string_of_uint];
                            rewrite StringFacts.append_String;
                            reflexivity ..].
Qed.

(** What follows a numeral is not read. *)
Lemma parseInt_toString_append (z : Z) (rest : string) :
  stopsNumeral rest = true ->
  parseInt (toString (Num z) ++ rest) = roundDouble z.
Proof.
  intros Hrest.
  destruct z as [|p|p]; unfold toString; simpl Z.to_int;
    unfold DecimalString.NilZero.string_of_int.
  - apply (parseInt_numeral (Decimal.D0 Decimal.Nil) rest);
      [discriminate | assumption].
  - rewrite ParseFacts.string_of_uint_pos.
    rewrite parseInt_numeral
      by (try apply ParseFacts.to_uint_not_nil; assumption).
    now rewrite ParseFacts.of_uint_to_uint.
  - rewrite ParseFacts.string_of_uint_pos, StringFacts.append_String.
    unfold parseInt. cbn [trimStart]. change (isStrWhiteSpaceChar "-") with false.
    cbv iota.
    rewrite parseMagnitude_numeral
      by (try apply ParseFacts.to_uint_not_nil; assumption).
    rewrite ParseFacts.of_uint_to_uint.
    apply NumberFacts.negate_roundDouble.
Qed.

End RuntimeFacts.

(** X11.  [getRuntime] reads the leading numeral only: text after the
    digits that starts with neither a digit nor x or X (a unit such as
    " min") does not change the result. *)
Theorem getRuntime_ignores_trailing_text (m : Z) (rest : string) :
  stopsNumeral rest = true ->
  getRuntime (JS.toString (JS.Num m) ++ rest)%string
  = getRuntime (JS.toString (JS.Num m)).
Proof.
  intros Hrest. unfold getRuntime.
  now rewrite RuntimeFacts.parseInt_toString_append,
    ParseFacts.parseInt_numeral_rounds.
Qed.

(** X12.  [getRuntime] on what is not a duration: a Runtime without a
    leading number gives "NaNm"; a negative number of minutes, down to
    -(2^53 - 1), never gets an hours part, and shows the remainder of the
    division by 60 with the sign of the minutes, between -59 and 0. *)
Theorem getRuntime_not_a_duration (runtime : string) :
  (JS.parseInt runtime = JS.NaN -> getRuntime runtime = "NaNm"%string)
  /\ (forall m,
        JS.parseInt runtime = JS.Num m -> -9007199254740991 <= m < 0 ->
        getRuntime runtime
        = (JS.toString (JS.Num (Z.rem m 60)) ++ "m")%string
        /\ -60 < Z.rem m 60 <= 0).
Proof.
  split.
  - intros H. unfold getRuntime. now rewrite H.
  - intros m H Hm. unfold getRuntime. rewrite H.
    unfold JS.floor_div, JS.rem, JS.gt.
    change (60 =? 0) with false. cbv iota.
    assert (Hq : m / 60 < 0) by (apply Z.div_lt_upper_bound; lia).
    destruct (Z.ltb_spec 0 (m / 60)); [lia|]. split; [reflexivity|].
    pose proof (Z.rem_bound_pos_neg m 60 ltac:(lia) ltac:(lia)). lia.
Qed.

Lemma getRuntime_ignores_trailing_text_witness :
  stopsNumeral " min" = true
  /\ getRuntime "136 min" = "2h 16m"%string.
Proof.
  split; [reflexivity|].
  exact (eq_trans
           (getRuntime_ignores_trailing_text 136 " min"%string eq_refl)
           eq_refl).
Defined.

Lemma getRuntime_not_a_duration_witness :
  JS.parseInt "-90" = JS.Num (-90) /\ -9007199254740991 <= -90 < 0
  /\ getRuntime "-90" = "-30m"%string
  /\ JS.parseInt "N/A" = JS.NaN
  /\ getRuntime "N/A" = "NaNm"%string.
Proof.
  split; [reflexivity|]. split; [lia|].
  split.
  - rewrite (proj1 (proj2 (getRuntime_not_a_duration "-90"%string) (-90)
                      eq_refl ltac:(lia))).
    reflexivity.
  - split; [reflexivity|].
    exact (proj1 (getRuntime_not_a_duration "N/A"%string) eq_refl).
Defined.

(** ** More about the fetch effect *)

(** X13.  An ok response whose body parses ends in Ready with exactly the
    movies of the body, provided no error was stored before; the grid then
    shows their cards under the filters in force. *)
Theorem ok_response_is_Ready (localeCompare : string -> string -> Z)
  (s : State) (data : list Movie) :
  error s = None ->
  lifecycle (finalState
               (fetchMovies (Normal {| ok := true; json := Normal data |}) s))
  = Ready data
  /\ render localeCompare
       (finalState
          (fetchMovies (Normal {| ok := true; json := Normal data |}) s))
     = MovieGrid
         (List.map card (filteredMovies localeCompare data (filters s)))
         (Nat.eqb
            (List.length (filteredMovies localeCompare data (filters s))) 0).
Proof.
  intros He. unfold lifecycle, render. simpl. rewrite He. split; reflexivity.
Qed.

Lemma ok_response_is_Ready_witness :
  error initialState = None
  /\ lifecycle (afterFetch (Normal {| ok := true; json := Normal [zeta; alpha] |}))
     = Ready [zeta; alpha]
  /\ render codeUnitCompare
       (afterFetch (Normal {| ok := true; json := Normal [zeta; alpha] |}))
     = MovieGrid [card alpha; card zeta] false.
Proof.
  split; [reflexivity|].
  exact (ok_response_is_Ready codeUnitCompare initialState [zeta; alpha]
           eq_refl).
Defined.

(** X14.  What the effect leaves alone.  It never writes the filters.  On
    success it stores the body and leaves the error cell as it was: an
    error stored earlier is not cleared.  On every failure it leaves the
    movie list as it was and stores an error. *)
Theorem fetchMovies_frame (outcome : Completion Response) (s : State) :
  filters (finalState (fetchMovies outcome s)) = filters s
  /\ (forall data,
        outcome = Normal {| ok := true; json := Normal data |} ->
        movies (finalState (fetchMovies outcome s)) = data
        /\ error (finalState (fetchMovies outcome s)) = error s)
  /\ ((forall data,
         outcome <> Normal {| ok := true; json := Normal data |}) ->
      movies (finalState (fetchMovies outcome s)) = movies s
      /\ error (finalState (fetchMovies outcome s)) <> None).
Proof.
  split; [destruct outcome as [[[] [data|v]]|v]; reflexivity|]. split.
  - intros data ->. split; reflexivity.
  - intros Hfail.
    destruct outcome as [[[] [data|v]]|v];
      try (split; [reflexivity | discriminate]).
    now elim (Hfail data).
Qed.

Lemma fetchMovies_frame_witness :
  Normal {| ok := true; json := Normal [zeta] |}
  = Normal {| ok := true; json := Normal [zeta] |}
  /\ lifecycle
       (finalState
          (fetchMovies (Normal {| ok := true; json := Normal [zeta] |})
             (afterFetch (Abrupt (ErrorObject "offline")))))
     = Error "offline"
  /\ movies
       (finalState
          (fetchMovies (Normal {| ok := true; json := Normal [zeta] |})
             (afterFetch (Abrupt (ErrorObject "offline")))))
     = [zeta].
Proof.
  split; [reflexivity|]. split; [reflexivity|].
  exact (proj1 (proj1 (proj2
           (fetchMovies_frame (Normal {| ok := true; json := Normal [zeta] |})
              (afterFetch (Abrupt (ErrorObject "offline")))))
           [zeta] eq_refl)).
Defined.

(** X15.  While the attempt runs the component shows Loading: the effect
    writes the cells three times, the lifecycle after each write but the
    last is Loading, and the last write is the one that clears the loading
    flag. *)
Theorem fetchMovies_loading_until_last_write (outcome : Completion Response)
  (s : State) :
  exists first second,
    commits (fetchMovies outcome s)
    = [first; second; finalState (fetchMovies outcome s)]
    /\ lifecycle first = Loading
    /\ lifecycle second = Loading
    /\ isLoading (finalState (fetchMovies outcome s)) = false.
Proof.
  destruct outcome as [[[] [data|v]]|v]; eexists _, _;
    (split; [reflexivity|]); repeat split.
Qed.

(** X16.  No reachable state holds an error together with movies, not
    after user input either: when the Error screen is shown there is no
    loaded list behind it. *)
Theorem error_excludes_movies (s : State) (message : string) :
  reachable s -> lifecycle s = Error message -> movies s = [].
Proof.
  intros Hr Hl. apply reachable_error_no_movies; [assumption|].
  unfold lifecycle in Hl. destruct (isLoading s); [discriminate|].
  destruct (error s); [discriminate | discriminate Hl].
Qed.

Lemma error_excludes_movies_witness :
  reachable (handleFilterChange key_sortBy "Year"
               (afterFetch (Normal {| ok := false; json := Normal [zeta] |})))
  /\ lifecycle (handleFilterChange key_sortBy "Year"
                  (afterFetch (Normal {| ok := false; json := Normal [zeta] |})))
     = Error "Failed to fetch movies"
  /\ movies (handleFilterChange key_sortBy "Year"
               (afterFetch (Normal {| ok := false; json := Normal [zeta] |})))
     = [].
Proof.
  assert (Hr : reachable
                 (handleFilterChange key_sortBy "Year"
                    (afterFetch
                       (Normal {| ok := false; json := Normal [zeta] |})))).
  { apply reachable_input.
    apply (reachable_commit (Normal {| ok := false; json := Normal [zeta] |})).
    simpl. auto. }
  split; [exact Hr|]. split; [reflexivity|].
  exact (error_excludes_movies _ "Failed to fetch movies"%string Hr eq_refl).
Defined.

(** ** User input *)

(** X17.  Writes of the filter configuration compose as writes to two
    independent fields: the later of two writes to one key wins, writes to
    different keys commute, and writing the value a field already holds
    changes nothing. *)
Theorem handleFilterChange_composes (s : State) (v w : string) :
  (forall key,
     handleFilterChange key w (handleFilterChange key v s)
     = handleFilterChange key w s)
  /\ handleFilterChange key_sortBy w (handleFilterChange key_searchTerm v s)
     = handleFilterChange key_searchTerm v (handleFilterChange key_sortBy w s)
  /\ handleFilterChange key_searchTerm (searchTerm (filters s)) s = s
  /\ handleFilterChange key_sortBy (sortBy (filters s)) s = s.
Proof.
  destruct s as [ms ld er [term key]].
  repeat split; try reflexivity. intros []; reflexivity.
Qed.

Lemma userInputs_cells (inputs : list (FilterKey * string)) (s : State) :
  movies (userInputs inputs s) = movies s
  /\ isLoading (userInputs inputs s) = isLoading s
  /\ error (userInputs inputs s) = error s.
Proof.
  revert s. induction inputs as [|[key value] inputs IH]; intros s;
    [repeat split|].
  unfold userInputs in *. cbn [List.fold_left fst snd].
  destruct (IH (handleFilterChange key value s)) as (Hm & Hl & He).
  rewrite Hm, Hl, He. repeat split.
Qed.

(** X18.  No run of user inputs changes the lifecycle: what the fetch
    decided stays, so a failure cannot be left by typing or selecting, and
    the loaded movies stay the same. *)
Theorem userInputs_keep_lifecycle (inputs : list (FilterKey * string))
  (s : State) :
  lifecycle (userInputs inputs s) = lifecycle s
  /\ movies (userInputs inputs s) = movies s.
Proof.
  destruct (userInputs_cells inputs s) as (Hm & Hl & He).
  unfold lifecycle. rewrite Hm, Hl, He. split; reflexivity.
Qed.

(** X19.  After a run of user inputs each filter field holds the value of
    the last input for its key, or what it held before when there was
    none. *)
Theorem userInputs_last_write_wins (inputs : list (FilterKey * string))
  (s : State) (value : string) :
  (searchTerm (filters (userInputs (inputs ++ [(key_searchTerm, value)]) s))
   = value
   /\ sortBy (filters (userInputs (inputs ++ [(key_searchTerm, value)]) s))
      = sortBy (filters (userInputs inputs s)))
  /\ (sortBy (filters (userInputs (inputs ++ [(key_sortBy, value)]) s))
      = value
      /\ searchTerm (filters (userInputs (inputs ++ [(key_sortBy, value)]) s))
         = searchTerm (filters (userInputs inputs s)))
  /\ ((forall v, ~ In (key_searchTerm, v) inputs) ->
      searchTerm (filters (userInputs inputs s)) = searchTerm (filters s))
  /\ ((forall v, ~ In (key_sortBy, v) inputs) ->
      sortBy (filters (userInputs inputs s)) = sortBy (filters s)).
Proof.
  unfold userInputs. rewrite !List.fold_left_app. cbn [List.fold_left fst snd].
  split; [split; reflexivity|]. split; [split; reflexivity|].
  split; revert s; induction inputs as [|[[] v] inputs IH]; intros s Hnone;
    cbn [List.fold_left fst snd]; try reflexivity;
    try (now elim (Hnone v); left);
    (rewrite IH; [reflexivity|]; intros v' Hin; apply (Hnone v'); now right).
Qed.

(** ** Arrays across renders *)

(** X20.  Each evaluation of the view list puts it in an array that did
    not exist before.  A second evaluation, under any filter
    configuration, gets another array and leaves the first view list and
    every array that existed at the start as they were. *)
Theorem view_lists_do_not_alias (localeCompare : string -> string -> Z)
  (h : gmap JS.ref (list Movie)) (moviesRef : JS.ref) (l : list Movie)
  (f g : FilterOptions) :
  h !! moviesRef = Some l ->
  exists h1 view1 h2 view2,
    filteredMovies_heap localeCompare moviesRef f h = Some (h1, view1)
    /\ filteredMovies_heap localeCompare moviesRef g h1 = Some (h2, view2)
    /\ h !! view1 = None
    /\ view2 <> view1
    /\ h2 !! view1 = Some (filteredMovies localeCompare l f)
    /\ h2 !! view2 = Some (filteredMovies localeCompare l g)
    /\ forall r, is_Some (h !! r) -> h2 !! r = h !! r.
Proof.
  intros Hl.
  destruct (filteredMovies_heap_run localeCompare h moviesRef l f Hl)
    as (h1 & view1 & Hrun1 & Hnew1 & Hview1 & Hframe1).
  assert (Hl1 : h1 !! moviesRef = Some l).
  { rewrite Hframe1 by congruence. exact Hl. }
  destruct (filteredMovies_heap_run localeCompare h1 moviesRef l g Hl1)
    as (h2 & view2 & Hrun2 & Hnew2 & Hview2 & Hframe2).
  assert (Hne : view2 <> view1) by congruence.
  exists h1, view1, h2, view2. repeat split; try assumption.
  - rewrite Hframe2 by congruence. exact Hview1.
  - intros r [x Hr].
    assert (r <> view1) by congruence.
    assert (h1 !! r = Some x) as Hr1 by (rewrite Hframe1; assumption).
    assert (r <> view2) by congruence.
    rewrite Hframe2, Hframe1 by assumption. reflexivity.
Qed.

Lemma view_lists_do_not_alias_witness :
  ({[ 1%positive := [zeta; alpha] ]} : gmap JS.ref (list Movie)) !! 1%positive
  = Some [zeta; alpha]
  /\ exists h1 view1 h2 view2,
       filteredMovies_heap codeUnitCompare 1%positive
         {| searchTerm := ""; sortBy := "Title" |}
         {[ 1%positive := [zeta; alpha] ]} = Some (h1, view1)
       /\ filteredMovies_heap codeUnitCompare 1%positive
            {| searchTerm := "z"; sortBy := "Year" |} h1 = Some (h2, view2)
       /\ view2 <> view1
       /\ h2 !! view1 = Some [alpha; zeta]
       /\ h2 !! view2 = Some [zeta].
Proof.
  split; [apply lookup_singleton_eq|].
  destruct (view_lists_do_not_alias codeUnitCompare
              {[ 1%positive := [zeta; alpha] ]} 1%positive [zeta; alpha]
              {| searchTerm := ""; sortBy := "Title" |}
              {| searchTerm := "z"; sortBy := "Year" |}
              ltac:(apply lookup_singleton_eq))
    as (h1 & view1 & h2 & view2 & H1 & H2 & _ & Hne & Hv1 & Hv2 & _).
  exists h1, view1, h2, view2. repeat split; assumption.
Defined.

(** ** The view list does not depend on the sorting algorithm *)

Module StableFacts.
Import JS.

Section Consistent.
Context {A : Type} (c : A -> A -> number).
Hypothesis Hc : consistent c.

Lemma tied_same_class (x z y : A) :
  tied c x z = true -> tied c x y = tied c z y.
Proof.
  intros Hxz.
  destruct (tied c x y) eqn:Hxy, (tied c z y) eqn:Hzy; try reflexivity.
  - rewrite (SortFacts.tied_sym c Hc) in Hxz.
    pose proof (SortFacts.tied_trans c Hc _ _ _ Hxz Hxy). congruence.
  - pose proof (SortFacts.tied_trans c Hc _ _ _ Hxz Hzy). congruence.
Qed.

Lemma filter_none (p : A -> bool) (l : list A) :
  (forall y, In y l -> p y = false) -> List.filter p l = [].
Proof.
  induction l as [|y l IH]; intros H; [reflexivity|]. cbn [List.filter].
  rewrite (H y) by now left. apply IH. intros z Hz. apply H. now right.
Qed.

(** Stability needs checking only against the members of the list. *)
Lemma stable_on_members (l l' : list A) :
  Permutation l' l ->
  (forall z, In z l ->
             List.filter (tied c z) l' = List.filter (tied c z) l) ->
  forall x, List.filter (tied c x) l' = List.filter (tied c x) l.
Proof.
  intros Hperm Hmem x.
  destruct (List.existsb (tied c x) l) eqn:Hex.
  - apply List.existsb_exists in Hex as (z & Hz & Hxz).
    rewrite (List.filter_ext _ _ (fun y => tied_same_class x z y Hxz) l').
    rewrite (List.filter_ext _ _ (fun y => tied_same_class x z y Hxz) l).
    now apply Hmem.
  - assert (Hnone : forall y, In y l -> tied c x y = false).
    { intros y Hy. destruct (tied c x y) eqn:Hxy; [|reflexivity].
      assert (List.existsb (tied c x) l = true) as Hyes
        by (apply List.existsb_exists; eauto).
      congruence. }
    rewrite !filter_none; [reflexivity | assumption |].
    intros y Hy. apply Hnone. now apply (Permutation_in _ Hperm).
Qed.

End Consistent.

End StableFacts.

(** X21.  When the sort can order the raw list, the view list is the only
    arrangement of the matching movies that is in the comparator's order
    with tied movies in raw-list order: any sorting algorithm that is
    stable, as the language requires, yields this same list. *)
Theorem view_list_is_the_stable_arrangement
  (localeCompare : string -> string -> Z) (l l' : list Movie)
  (f : FilterOptions) :
  sortable localeCompare f l ->
  JS.stableSortOf (compareFn localeCompare f)
    (List.filter (matchesSearch f) l) l' ->
  l' = filteredMovies localeCompare l f.
Proof.
  intros Hs (Hperm & Hsorted & Hstable).
  apply (sortable_filter _ f (matchesSearch f)) in Hs.
  destruct (sortable_comparator _ f _ Hs) as (c & Hc & Hagree).
  assert (Hin : forall y, In y l' -> In y (List.filter (matchesSearch f) l)).
  { intros y. apply (Permutation_in _ Hperm). }
  unfold filteredMovies. rewrite (SortMore.sort_ext_In _ c) by exact Hagree.
  apply (SortFacts.sort_unique c Hc). split; [exact Hperm|]. split.
  - apply SortFacts.Sorted_impl_In
      with (R := JS.before (compareFn localeCompare f)); [|exact Hsorted].
    intros a b Ha Hb. unfold JS.before. rewrite Hagree; auto.
  - apply (StableFacts.stable_on_members c Hc); [exact Hperm|].
    intros z Hz. specialize (Hstable z).
    rewrite (List.filter_ext_in (JS.tied c z)
               (JS.tied (compareFn localeCompare f) z) l').
    + rewrite Hstable. apply List.filter_ext_in. intros y Hy.
      unfold JS.tied. now rewrite Hagree.
    + intros y Hy. unfold JS.tied. rewrite Hagree; auto.
Qed.

Lemma view_list_is_the_stable_arrangement_witness :
  sortable codeUnitCompare {| searchTerm := ""; sortBy := "Title" |}
    [zeta; alpha]
  /\ JS.stableSortOf
       (compareFn codeUnitCompare {| searchTerm := ""; sortBy := "Title" |})
       (List.filter (matchesSearch {| searchTerm := ""; sortBy := "Title" |})
          [zeta; alpha])
       [alpha; zeta]
  /\ [alpha; zeta]
     = filteredMovies codeUnitCompare [zeta; alpha]
         {| searchTerm := ""; sortBy := "Title" |}.
Proof.
  assert (Hs : sortable codeUnitCompare
                 {| searchTerm := ""; sortBy := "Title" |} [zeta; alpha])
    by exact codeUnitCompare_totalPreorder.
  assert (Hst : JS.stableSortOf
                  (compareFn codeUnitCompare
                     {| searchTerm := ""; sortBy := "Title" |})
                  (List.filter
                     (matchesSearch {| searchTerm := ""; sortBy := "Title" |})
                     [zeta; alpha])
                  [alpha; zeta]).
  { exact (SortFacts.sort_stableSortOf _
             (compareFn_Title_consistent codeUnitCompare
                {| searchTerm := ""; sortBy := "Title" |}
                codeUnitCompare_totalPreorder eq_refl)
             [zeta; alpha]). }
  split; [exact Hs|]. split; [exact Hst|].
  exact (view_list_is_the_stable_arrangement codeUnitCompare
           [zeta; alpha] [alpha; zeta]
           {| searchTerm := ""; sortBy := "Title" |} Hs Hst).
Defined.

Lemma userInputs_last_write_wins_witness :
  (forall v, ~ In (key_searchTerm, v) [(key_sortBy, "Year"%string)])
  /\ searchTerm (filters (userInputs [(key_sortBy, "Year"%string)] loadedSample))
     = "zz"%string
  /\ sortBy (filters (userInputs [(key_sortBy, "Year"%string);
                                  (key_sortBy, "Runtime"%string)] loadedSample))
     = "Runtime"%string.
Proof.
  assert (Hnone : forall v,
             ~ In (key_searchTerm, v) [(key_sortBy, "Year"%string)]).
  { intros v [H|[]]. discriminate H. }
  split; [exact Hnone|]. split.
  - exact (proj1 (proj2 (proj2
             (userInputs_last_write_wins [(key_sortBy, "Year"%string)]
                loadedSample ""%string))) Hnone).
  - exact (proj1 (proj1 (proj2
             (userInputs_last_write_wins [(key_sortBy, "Year"%string)]
                loadedSample "Runtime"%string)))).
Defined.
